(** * Signed source lists of dnscrypt-proxy: cache, mirrors, scheduling, parsing

    A shallow embedding of [dnscrypt-proxy/sources.go].  Every Go function of
    that file is a Rocq function of the same name.  The file system, the
    network and the clock form an explicit [World] that is passed through
    the functions that touch them; a [Source] is a record that is passed in
    and returned where the Go code mutates the receiver.  A nil dereference
    is the outcome [Panics].  Logging ([dlog]) has no effect on any value
    and is left out. *)

From Stdlib Require Import ZArith Ascii String List Lia Bool.
From stdpp Require Import base decidable option list gmap strings.

Local Open Scope string_scope.
Local Open Scope Z_scope.

(** ** Go values *)

(** [[]byte]. *)
Abbreviation bytes := (list Byte.byte).

(** [string(b)] and [[]byte(s)]: both keep the bytes as they are. *)
Definition string_of_bytes (b : bytes) : string := string_of_list_byte b.
Definition bytes_of_string (s : string) : bytes := list_byte_of_string s.

(** The line feed, written ["\n"] in Go. *)
Definition LF : string := String (ascii_of_nat 10) EmptyString.

(** ** [time.Duration] and [time.Time]

    A [Duration] is an [int64] count of nanoseconds; its subtraction wraps
    around.  A [Time] is an instant, held here as the number of nanoseconds
    since the zero [Time] (January 1, year 1, UTC); the bounded range of
    Go's representation and its monotonic clock reading are not modelled. *)
Module GoTime.

Definition Duration := Z.
Definition Time := Z.

Definition minDuration : Duration := - 2 ^ 63.
Definition maxDuration : Duration := 2 ^ 63 - 1.

Definition is_int64 (d : Z) : Prop := minDuration <= d <= maxDuration.

(** Two's complement reduction of an integer to the [int64] range. *)
Definition wrap64 (z : Z) : Z := (z + 2 ^ 63) mod 2 ^ 64 - 2 ^ 63.

(** [a - b] on [Duration]. *)
Definition dsub (a b : Duration) : Duration := wrap64 (a - b).

Definition Nanosecond : Duration := 1.
Definition Second : Duration := 1000000000 * Nanosecond.
Definition Minute : Duration := 60 * Second.
Definition Hour : Duration := 60 * Minute.

(** [t.IsZero()] *)
Definition IsZero (t : Time) : bool := t =? 0.
(** [t.After(u)] *)
Definition After (t u : Time) : bool := u <? t.
(** [t.Add(d)] *)
Definition Add (t : Time) (d : Duration) : Time := t + d.
(** [t.Sub(u)]: the difference, saturated to the range of [Duration]. *)
Definition Sub (t u : Time) : Duration :=
  if t - u <? minDuration then minDuration
  else if maxDuration <? t - u then maxDuration
  else t - u.

End GoTime.
Import GoTime.

(** ** The functions of package [strings] that the parser calls

    Go strings are byte strings, so [string] (a list of 8-bit characters)
    holds them as they are. *)
Module GoStrings.

(** [strings.HasPrefix(s, prefix)] *)
Definition HasPrefix (s pre : string) : bool := String.prefix pre s.

(** [len(s)] *)
Definition len (s : string) : Z := Z.of_nat (String.length s).

(** [strings.Split(s, sep)] for a non-empty [sep]: the pieces between the
    leftmost non-overlapping occurrences of [sep].  [skip] counts the
    bytes of a matched separator that are still to be dropped and [cur]
    holds the current piece, last byte first. *)
Fixpoint split_go (sep : string) (skip : nat) (cur : list ascii) (s : string)
  : list string :=
  match s with
  | EmptyString => [string_of_list_ascii (rev cur)]
  | String c s' =>
      match skip with
      | S k => split_go sep k cur s'
      | O =>
          if String.prefix sep s
          then string_of_list_ascii (rev cur)
                 :: split_go sep (String.length sep - 1) [] s'
          else split_go sep O (c :: cur) s'
      end
  end.

Definition Split (s sep : string) : list string := split_go sep O [] s.

(** [strings.Join(a, sep)] *)
Fixpoint Join (a : list string) (sep : string) : string :=
  match a with
  | [] => ""
  | [x] => x
  | x :: rest => x ++ sep ++ Join rest sep
  end.

(** [unicode.IsSpace] on the runes below U+0080. *)
Definition space1 (a : ascii) : bool :=
  let n := N_of_ascii a in
  ((9 <=? n) && (n <=? 13) || (n =? 32))%N.

(** The two-byte encodings of white space: U+0085 and U+00A0. *)
Definition space2 (a b : ascii) : bool :=
  ((N_of_ascii a =? 194) && ((N_of_ascii b =? 133) || (N_of_ascii b =? 160)))%N.

(** The three-byte encodings of white space: U+1680, U+2000 to U+200A,
    U+2028, U+2029, U+202F, U+205F and U+3000. *)
Definition space3 (a b c : ascii) : bool :=
  let x := N_of_ascii a in
  let y := N_of_ascii b in
  let z := N_of_ascii c in
  ((x =? 225) && (y =? 154) && (z =? 128)
   || (x =? 226) && (y =? 128)
      && ((128 <=? z) && (z <=? 138) || (z =? 168) || (z =? 169) || (z =? 175))
   || (x =? 226) && (y =? 129) && (z =? 159)
   || (x =? 227) && (y =? 128) && (z =? 128))%N.

(** Drops white-space runes from the front of a byte list.  A rune that
    [unicode.IsSpace] accepts starts at a position exactly when one of
    the encodings above does; [m2] and [m3] receive the bytes in the
    order in which the list presents them. *)
Fixpoint trim_front (m2 : ascii -> ascii -> bool)
    (m3 : ascii -> ascii -> ascii -> bool) (l : list ascii) : list ascii :=
  match l with
  | [] => []
  | a :: t1 =>
      if space1 a then trim_front m2 m3 t1
      else
        match t1 with
        | [] => l
        | b :: t2 =>
            if m2 a b then trim_front m2 m3 t2
            else
              match t2 with
              | [] => l
              | c :: t3 => if m3 a b c then trim_front m2 m3 t3 else l
              end
        end
  end.

(** [strings.TrimFunc(s, unicode.IsSpace)]: the white-space runes at both
    ends are removed; the trailing ones are found on the reversed list,
    where an encoding shows its last byte first. *)
Definition TrimSpaceFunc (s : string) : string :=
  let front := trim_front space2 space3 (list_ascii_of_string s) in
  let back :=
    trim_front (fun a b => space2 b a) (fun a b c => space3 c b a) (rev front) in
  string_of_list_ascii (rev back).

End GoStrings.
Import GoStrings.

(** ** Errors, URLs and the collaborators outside [sources.go] *)

(** The fields of [url.URL] that tell two locations apart. *)
Record URL : Type := mkURL {
  Scheme : string;
  Host : string;
  Path : string;
  RawQuery : string
}.

#[global] Instance URL_eq_dec : EqDecision URL.
Proof. solve_decision. Defined.

(** A Go [error].  [ErrExternal] is an error made by a collaborator (the
    operating system, the transport, minisign, the stamp decoder); the
    others are the three [fmt.Errorf] calls of [sources.go]. *)
Inductive error : Type :=
| ErrExternal (msg : string)
| ErrUnsupportedFormat (formatStr : string)
| ErrInvalidFormat (at_urls : list URL)
| ErrStamps (msg : string).

#[global] Instance error_eq_dec : EqDecision error.
Proof. solve_decision. Defined.

(** [err.Error()] for the errors whose text [sources.go] reads. *)
Definition Error (e : error) : string :=
  match e with
  | ErrExternal msg => msg
  | ErrUnsupportedFormat f => "Unsupported source format: [" ++ f ++ "]"
  | ErrInvalidFormat _ => "Invalid format for source"
  | ErrStamps msg => msg
  end.

(** What the transport answers to a [Get]: an error, or a body that yields
    [body_data] and then ends, with [body_err] if the stream breaks. *)
Inductive Response : Type :=
| GetFails (e : error)
| GetBody (body_data : bytes) (body_err : option error).

(** The packages and constants that [sources.go] imports: minisign, the
    stamp decoder, [url.Parse], and the body cap [MaxHTTPBodyLength] that
    is declared in another file of the package. *)
Class Externals : Type := {
  PublicKey : Type;
  Signature : Type;
  ServerStamp : Type;
  minisign_NewPublicKey : string -> error + PublicKey;
  minisign_DecodeSignature : string -> error + Signature;
  minisign_Verify : PublicKey -> bytes -> Signature -> bool * option error;
  url_Parse : string -> error + URL;
  stamps_NewServerStampFromString : string -> error + ServerStamp;
  MaxHTTPBodyLength : Z
}.

(** ** Outcomes: a call returns, or the process panics *)
Inductive outcome (A : Type) : Type :=
| Returns (a : A)
| Panics.
Arguments Returns {A} a.
Arguments Panics {A}.

#[global] Instance outcome_ret : MRet outcome := fun A a => Returns a.
#[global] Instance outcome_bind : MBind outcome := fun A B f m =>
  match m with
  | Returns a => f a
  | Panics => Panics
  end.

(** ** The world: files, network, clock *)

Record File : Type := mkFile {
  content : bytes;
  modTime : Time
}.

(** [files] is the directory tree; [stat_deny] and [write_deny] are the
    paths at which [os.Stat] and [safefile.WriteFile] fail for a reason
    outside the program; [written] lists the paths that [WriteFile] was
    called on, oldest first; [net] is the answer of the transport to a
    [Get] of a URL and [fetched] the requests made so far, oldest first;
    [clock] is what [time.Now] reads and what a written file gets as its
    time. *)
Record World : Type := mkWorld {
  files : gmap string File;
  stat_deny : gset string;
  write_deny : gset string;
  written : list string;
  net : URL -> Response;
  fetched : list URL;
  clock : Time
}.

Definition with_files (w : World) (fs : gmap string File) : World :=
  mkWorld fs (stat_deny w) (write_deny w) (written w) (net w) (fetched w)
          (clock w).

Definition with_written (w : World) (l : list string) : World :=
  mkWorld (files w) (stat_deny w) (write_deny w) l (net w) (fetched w)
          (clock w).

Definition with_fetched (w : World) (l : list URL) : World :=
  mkWorld (files w) (stat_deny w) (write_deny w) (written w) (net w) l
          (clock w).

(** [ioutil.ReadFile(path)] *)
Definition ReadFile (w : World) (path : string) : error + bytes :=
  match files w !! path with
  | Some f => inr (content f)
  | None => inl (ErrExternal "no such file or directory")
  end.

(** [os.Stat(path)] followed by [ModTime()] *)
Definition Stat (w : World) (path : string) : error + Time :=
  if decide (path ∈ stat_deny w) then inl (ErrExternal "stat failed")
  else match files w !! path with
       | Some f => inr (modTime f)
       | None => inl (ErrExternal "no such file or directory")
       end.

(** [safefile.WriteFile(path, data, 0644)]: the data goes to a temporary
    file that is renamed over [path], so [path] holds the old content or
    all of the new one. *)
Definition WriteFile (w : World) (path : string) (data : bytes)
  : option error * World :=
  let w := with_written w (written w ++ [path])%list in
  if decide (path ∈ write_deny w) then (Some (ErrExternal "write failed"), w)
  else (None, with_files w (<[path := mkFile data (clock w)]> (files w))).

(** [timeNow()] *)
Definition timeNow (w : World) : Time := clock w.

(** ** The package [sources.go] *)

Definition SourceFormat := Z.
Definition SourceFormatV2 : SourceFormat := 0.

Definition DefaultPrefetchDelay : Duration := 24 * Hour.
Definition MinimumPrefetchInterval : Duration := 10 * Minute.

Section Sources.

Context `{Ext : Externals}.

(** [minisignKey] is a pointer: [None] is nil. *)
Record Source : Type := mkSource {
  name : string;
  urls : list URL;
  format : SourceFormat;
  in_ : bytes;
  minisignKey : option PublicKey;
  cacheFile : string;
  cacheTTL : Duration;
  prefetchDelay : Duration;
  refresh : Time
}.

Definition set_in (s : Source) (b : bytes) : Source :=
  mkSource (name s) (urls s) (format s) b (minisignKey s) (cacheFile s)
           (cacheTTL s) (prefetchDelay s) (refresh s).

Definition set_refresh (s : Source) (t : Time) : Source :=
  mkSource (name s) (urls s) (format s) (in_ s) (minisignKey s) (cacheFile s)
           (cacheTTL s) (prefetchDelay s) t.

Definition set_urls (s : Source) (l : list URL) : Source :=
  mkSource (name s) l (format s) (in_ s) (minisignKey s) (cacheFile s)
           (cacheTTL s) (prefetchDelay s) (refresh s).

Definition set_format (s : Source) (f : SourceFormat) : Source :=
  mkSource (name s) (urls s) f (in_ s) (minisignKey s) (cacheFile s)
           (cacheTTL s) (prefetchDelay s) (refresh s).

Definition set_minisignKey (s : Source) (k : option PublicKey) : Source :=
  mkSource (name s) (urls s) (format s) (in_ s) k (cacheFile s)
           (cacheTTL s) (prefetchDelay s) (refresh s).

(** [checkSignature]: the signature text is decoded first; only then is the
    key dereferenced. *)
Definition checkSignature (source : Source) (bin sig : bytes)
  : outcome (option error) :=
  match minisign_DecodeSignature (string_of_bytes sig) with
  | inl e => Returns (Some e)
  | inr signature =>
      match minisignKey source with
      | None => Panics
      | Some key => Returns (snd (minisign_Verify key bin signature))
      end
  end.

(** The path of the detached signature of a cache file. *)
Definition sigFile (f : string) : string := f ++ ".minisig".

(** [fetchFromCache]: the result is [(delay, err)] and the source as the
    call leaves it. *)
Definition fetchFromCache (source : Source) (now : Time) (w : World)
  : outcome (Duration * option error * Source) :=
  match ReadFile w (cacheFile source) with
  | inl e => Returns (0, Some e, source)
  | inr bin =>
      match ReadFile w (sigFile (cacheFile source)) with
      | inl e => Returns (0, Some e, source)
      | inr sig =>
          err ← checkSignature source bin sig;
          match err with
          | Some e => Returns (0, Some e, source)
          | None =>
              let source := set_in source bin in
              match Stat w (cacheFile source) with
              | inl e => Returns (0, Some e, source)
              | inr mtime =>
                  let elapsed := Sub now mtime in
                  if elapsed <? cacheTTL source
                  then Returns (dsub (prefetchDelay source) elapsed, None, source)
                  else Returns (0, None, source)
              end
          end
      end
  end.

(** [writeToCache]: the blob, then the signature; the first failure ends
    the call. *)
Definition writeToCache (source : Source) (bin sig : bytes) (w : World)
  : option error * World :=
  let f := cacheFile source in
  match WriteFile w f bin with
  | (Some e, w) => (Some e, w)
  | (None, w) =>
      match WriteFile w (sigFile f) sig with
      | (Some e, w) => (Some e, w)
      | (None, w) => (None, w)
      end
  end.

(** [parseURLs] *)
Fixpoint parseURLs_loop (acc : list URL) (l : list string) : list URL :=
  match l with
  | [] => acc
  | urlStr :: rest =>
      match url_Parse urlStr with
      | inl _ => parseURLs_loop acc rest
      | inr srcURL => parseURLs_loop (acc ++ [srcURL])%list rest
      end
  end.

Definition parseURLs (source : Source) (l : list string) : Source :=
  set_urls source (parseURLs_loop (urls source) l).

(** [io.ReadAll(io.LimitReader(body, MaxHTTPBodyLength))] *)
Definition readLimited (data : bytes) (e : option error) : bytes * option error :=
  if Z.of_nat (length data) <? MaxHTTPBodyLength then (data, e)
  else (take (Z.to_nat MaxHTTPBodyLength) data, None).

(** What [fetchFromURL] returns for [u]: [(bin, err)]. *)
Definition download (w : World) (u : URL) : bytes * option error :=
  match net w u with
  | GetFails e => ([], Some e)
  | GetBody data e => readLimited data e
  end.

(** [fetchFromURL]: the request is recorded in [fetched]. *)
Definition fetchFromURL (w : World) (u : URL) : bytes * option error * World :=
  (download w u, with_fetched w (fetched w ++ [u])%list).

(** The copy of [srcURL] whose [Path] ends in [".minisig"]. *)
Definition sigURL (srcURL : URL) : URL :=
  mkURL (Scheme srcURL) (Host srcURL) (Path srcURL ++ ".minisig") (RawQuery srcURL).

(** The [for ... range source.urls] loop of [fetchWithCache].  [bin], [sig]
    and [err] are the variables of the enclosing function that the loop
    assigns. *)
Fixpoint fetchLoop (source : Source) (l : list URL)
    (bin sig : bytes) (err : option error) (w : World)
  : outcome (bytes * bytes * option error * World) :=
  match l with
  | [] => Returns (bin, sig, err, w)
  | srcURL :: rest =>
      let '(bin, err, w) := fetchFromURL w srcURL in
      match err with
      | Some _ => fetchLoop source rest bin sig err w
      | None =>
          let '(sig, err, w) := fetchFromURL w (sigURL srcURL) in
          match err with
          | Some _ => fetchLoop source rest bin sig err w
          | None =>
              err ← checkSignature source bin sig;
              match err with
              | None => Returns (bin, sig, None, w)
              | Some _ => fetchLoop source rest bin sig err w
              end
          end
      end
  end.

(** The deferred [source.refresh = now.Add(delay)]: it is registered only
    when the source has a URL, and runs as the function returns. *)
Definition deferred_refresh (source : Source) (now : Time) (delay : Duration)
  : Source :=
  if 0 <? Z.of_nat (length (urls source))
  then set_refresh source (Add now delay)
  else source.

(** [fetchWithCache]: the result is [(delay, err)], the source and the
    world as the call leaves them. *)
Definition fetchWithCache (source : Source) (now : Time) (w : World)
  : outcome (Duration * option error * Source * World) :=
  '(delay, err, source) ← fetchFromCache source now w;
  if bool_decide (is_Some err) && (Z.of_nat (length (urls source)) =? 0)
  then Returns (delay, err, source, w)
  else
    if (Z.of_nat (length (urls source)) =? 0) || (0 <? delay)
    then Returns (delay, err, deferred_refresh source now delay, w)
    else
      let delay := MinimumPrefetchInterval in
      '(bin, sig, err, w) ← fetchLoop source (urls source) [] [] err w;
      match err with
      | Some _ => Returns (delay, err, deferred_refresh source now delay, w)
      | None =>
          let source := set_in source bin in
          let '(_, w) := writeToCache source bin sig w in
          let delay := prefetchDelay source in
          Returns (delay, None, deferred_refresh source now delay, w)
      end.

(** [NewSource]: the result is [(source, err)]. *)
Definition NewSource (name : string) (urls : list string)
    (minisignKeyStr cacheFile formatStr : string) (refreshDelay : Duration)
    (w : World) : outcome (Source * option error * World) :=
  let refreshDelay :=
    if refreshDelay <? DefaultPrefetchDelay then DefaultPrefetchDelay
    else refreshDelay in
  let source :=
    mkSource name [] 0 [] None cacheFile refreshDelay DefaultPrefetchDelay 0 in
  if String.eqb formatStr "v2"
  then
    let source := set_format source SourceFormatV2 in
    match minisign_NewPublicKey minisignKeyStr with
    | inl e => Returns (source, Some e, w)
    | inr minisignKey =>
        let source := set_minisignKey source (Some minisignKey) in
        let source := parseURLs source urls in
        '(_, err, source, w) ← fetchWithCache source (timeNow w) w;
        Returns (source, err, w)
    end
  else Returns (source, Some (ErrUnsupportedFormat formatStr), w).

(** [PrefetchSources].  The argument is a slice of pointers: [sources]
    lists addresses into [heap], so a source that is listed twice is one
    object; an address with no source behind it is a nil pointer. *)
Fixpoint prefetchLoop (now : Time) (sources : list nat) (interval : Duration)
    (heap : gmap nat Source) (w : World)
  : outcome (Duration * gmap nat Source * World) :=
  match sources with
  | [] => Returns (interval, heap, w)
  | p :: rest =>
      match heap !! p with
      | None => Panics
      | Some source =>
          if IsZero (refresh source) || After (refresh source) now
          then prefetchLoop now rest interval heap w
          else
            '(delay, err, source, w) ← fetchWithCache source now w;
            let heap := <[p := source]> heap in
            match err with
            | Some _ => prefetchLoop now rest interval heap w
            | None =>
                if (MinimumPrefetchInterval <=? delay)
                   && ((interval =? MinimumPrefetchInterval) || (delay <? interval))
                then prefetchLoop now rest delay heap w
                else prefetchLoop now rest interval heap w
            end
      end
  end.

Definition PrefetchSources (sources : list nat) (heap : gmap nat Source)
    (w : World) : outcome (Duration * gmap nat Source * World) :=
  let now := timeNow w in
  let interval := MinimumPrefetchInterval in
  prefetchLoop now sources interval heap w.

(** The fields of [RegisteredServer] (declared in another file of the
    package) that [parseV2] fills. *)
Record RegisteredServer : Type := mkRegisteredServer {
  rs_name : string;
  rs_stamp : ServerStamp;
  rs_description : string
}.

(** The loop over the lines of one section.  [None] is the
    [continue PartsLoop] taken at a second stamp line; otherwise the result
    is [(stampStr, description)]. *)
Fixpoint subpartsLoop (subparts : list string) (stampStr description : string)
  : option (string * string) :=
  match subparts with
  | [] => Some (stampStr, description)
  | subpart :: rest =>
      let subpart := TrimSpaceFunc subpart in
      if HasPrefix subpart "sdns:"
      then
        if 0 <? len stampStr then None
        else subpartsLoop rest subpart description
      else if (len subpart =? 0) || HasPrefix subpart "//"
      then subpartsLoop rest stampStr description
      else
        let description :=
          if 0 <? len description then description ++ LF else description in
        subpartsLoop rest stampStr (description ++ subpart)
  end.

(** What one turn of [PartsLoop] does: it returns from [parseV2] with the
    format error, or reports a stamp error and goes on, or appends a
    server and goes on. *)
Inductive partResult : Type :=
| PartReturn
| PartStampErr (stampErr : string)
| PartServer (registeredServer : RegisteredServer).

(** The body of [PartsLoop]. *)
Definition parsePart (prefix part : string) : partResult :=
  let part := TrimSpaceFunc part in
  let subparts := Split part LF in
  if Z.of_nat (length subparts) <? 2 then PartReturn
  else
    let name := TrimSpaceFunc (hd "" subparts) in
    if len name =? 0 then PartReturn
    else
      let subparts := tl subparts in
      let name := prefix ++ name in
      match subpartsLoop subparts "" "" with
      | None => PartStampErr ("Multiple stamps for server [" ++ name ++ "]")
      | Some (stampStr, description) =>
          if len stampStr <? 6
          then PartStampErr ("Missing stamp for server [" ++ name ++ "]")
          else
            match stamps_NewServerStampFromString stampStr with
            | inl err =>
                PartStampErr ("Invalid or unsupported stamp [" ++ stampStr
                              ++ "]: " ++ Error err)
            | inr stamp => PartServer (mkRegisteredServer name stamp description)
            end
      end.

(** [PartsLoop]: the result is [registeredServers], [stampErrs] and whether
    the loop was left by the [return] of the format error. *)
Fixpoint partsLoop (prefix : string) (parts : list string)
    (registeredServers : list RegisteredServer) (stampErrs : list string)
  : list RegisteredServer * list string * bool :=
  match parts with
  | [] => (registeredServers, stampErrs, false)
  | part :: rest =>
      match parsePart prefix part with
      | PartReturn => (registeredServers, stampErrs, true)
      | PartStampErr stampErr =>
          partsLoop prefix rest registeredServers (stampErrs ++ [stampErr])%list
      | PartServer registeredServer =>
          partsLoop prefix rest (registeredServers ++ [registeredServer])%list
                    stampErrs
      end
  end.

(** [parseV2] *)
Definition parseV2 (source : Source) (prefix : string)
  : list RegisteredServer * option error :=
  let in_s := string_of_bytes (in_ source) in
  let parts := Split in_s "## " in
  if Z.of_nat (length parts) <? 2
  then ([], Some (ErrInvalidFormat (urls source)))
  else
    let parts := tl parts in
    match partsLoop prefix parts [] [] with
    | (registeredServers, _, true) =>
        (registeredServers, Some (ErrInvalidFormat (urls source)))
    | (registeredServers, stampErrs, false) =>
        if 0 <? Z.of_nat (length stampErrs)
        then (registeredServers, Some (ErrStamps (Join stampErrs ", ")))
        else (registeredServers, None)
    end.

(** ** Notions the statements are written in *)

(** The pair of cache files of [source] is on disk, its signature checks
    under the key of [source], and the blob file can be statted: [bin] is
    the blob and [mtime] its modification time. *)
Definition cache_verified (source : Source) (w : World) (bin : bytes)
    (mtime : Time) : Prop :=
  ReadFile w (cacheFile source) = inr bin
  /\ (exists sig, ReadFile w (sigFile (cacheFile source)) = inr sig
                  /\ checkSignature source bin sig = Returns None)
  /\ Stat w (cacheFile source) = inr mtime.

(** Mirror [u] serves the blob [bin] and the signature [sig], and the pair
    passes the signature check. *)
Definition mirror_verifies (source : Source) (w : World) (u : URL)
    (bin sig : bytes) : Prop :=
  download w u = (bin, None)
  /\ download w (sigURL u) = (sig, None)
  /\ checkSignature source bin sig = Returns None.

(** Mirror [u] fails with [e]: the blob cannot be downloaded, or the
    signature cannot, or the pair does not pass the signature check. *)
Definition mirror_fails (source : Source) (w : World) (u : URL) (e : error)
  : Prop :=
  (exists b, download w u = (b, Some e))
  \/ (exists bin b, download w u = (bin, None)
                    /\ download w (sigURL u) = (b, Some e))
  \/ (exists bin sig, download w u = (bin, None)
                      /\ download w (sigURL u) = (sig, None)
                      /\ checkSignature source bin sig = Returns (Some e)).

(** The requests that one attempt on mirror [u] makes. *)
Definition requests (w : World) (u : URL) : list URL :=
  match download w u with
  | (_, Some _) => [u]
  | (_, None) => [u; sigURL u]
  end.

(** Content that [source] may hold after a call made in world [w]: the
    cached blob or the blob of one of its mirrors, each with a signature
    from the same place that checks under the key of [source]. *)
Inductive accepted (source : Source) (w : World) (bin : bytes) : Prop :=
| accepted_cache (sig : bytes) :
    ReadFile w (cacheFile source) = inr bin ->
    ReadFile w (sigFile (cacheFile source)) = inr sig ->
    checkSignature source bin sig = Returns None ->
    accepted source w bin
| accepted_mirror (u : URL) (sig : bytes) :
    u ∈ urls source ->
    mirror_verifies source w u bin sig ->
    accepted source w bin.


(** What a reader of the cache pair at [f] finds in [w]. *)
Definition cached_pair (w : World) (f : string) : option bytes * option bytes :=
  (content <$> files w !! f, content <$> files w !! sigFile f).

(** The configuration of a source: every field but [in] and [refresh]. *)
Definition same_config (s s' : Source) : Prop :=
  name s' = name s /\ urls s' = urls s /\ format s' = format s
  /\ minisignKey s' = minisignKey s /\ cacheFile s' = cacheFile s
  /\ cacheTTL s' = cacheTTL s /\ prefetchDelay s' = prefetchDelay s.

(** Every way in which [fetchFromCache] returns. *)
Inductive fromCache (source : Source) (now : Time) (w : World)
  : Duration -> option error -> Source -> Prop :=
| fromCache_miss (e : error) :
    (ReadFile w (cacheFile source) = inl e
     \/ (exists bin, ReadFile w (cacheFile source) = inr bin
                     /\ ReadFile w (sigFile (cacheFile source)) = inl e)
     \/ (exists bin sig, ReadFile w (cacheFile source) = inr bin
                         /\ ReadFile w (sigFile (cacheFile source)) = inr sig
                         /\ checkSignature source bin sig = Returns (Some e))) ->
    fromCache source now w 0 (Some e) source
| fromCache_nostat (bin sig : bytes) (e : error) :
    ReadFile w (cacheFile source) = inr bin ->
    ReadFile w (sigFile (cacheFile source)) = inr sig ->
    checkSignature source bin sig = Returns None ->
    Stat w (cacheFile source) = inl e ->
    fromCache source now w 0 (Some e) (set_in source bin)
| fromCache_fresh (bin : bytes) (mtime : Time) :
    cache_verified source w bin mtime ->
    Sub now mtime < cacheTTL source ->
    fromCache source now w (dsub (prefetchDelay source) (Sub now mtime)) None
              (set_in source bin)
| fromCache_stale (bin : bytes) (mtime : Time) :
    cache_verified source w bin mtime ->
    cacheTTL source <= Sub now mtime ->
    fromCache source now w 0 None (set_in source bin).

(** Every way in which [fetchWithCache] returns: without a URL (the cache
    is all there is, and [refresh] is left alone); on a cache that yields
    a positive delay; after the mirrors all failed; after a mirror
    verified. *)
Inductive withCache (source : Source) (now : Time) (w : World)
  : Duration -> option error -> Source -> World -> Prop :=
| withCache_no_url (d : Duration) (e : option error) (s1 : Source) :
    fromCache source now w d e s1 ->
    urls source = [] ->
    withCache source now w d e s1 w
| withCache_fresh (d : Duration) (s1 : Source) :
    fromCache source now w d None s1 ->
    urls source <> [] ->
    0 < d ->
    withCache source now w d None (set_refresh s1 (Add now d)) w
| withCache_mirrors_failed (d : Duration) (e0 : option error) (s1 : Source)
    (bin sig : bytes) (e : error) (w1 : World) :
    fromCache source now w d e0 s1 ->
    urls source <> [] ->
    d <= 0 ->
    fetchLoop s1 (urls s1) [] [] e0 w = Returns (bin, sig, Some e, w1) ->
    withCache source now w MinimumPrefetchInterval (Some e)
              (set_refresh s1 (Add now MinimumPrefetchInterval)) w1
| withCache_mirror (d : Duration) (e0 : option error) (s1 : Source)
    (bin sig : bytes) (w1 : World) :
    fromCache source now w d e0 s1 ->
    urls source <> [] ->
    d <= 0 ->
    fetchLoop s1 (urls s1) [] [] e0 w = Returns (bin, sig, None, w1) ->
    withCache source now w (prefetchDelay source) None
              (set_refresh (set_in s1 bin) (Add now (prefetchDelay source)))
              (snd (writeToCache (set_in s1 bin) bin sig w1)).

(** The way the loop grows the description by one line. *)
Definition add_line (description line : string) : string :=
  (if 0 <? len description then description ++ LF else description) ++ line.

(** *** Sections of the text, in the words of the specification *)

(** The name of a section: the first line of the section once white space
    (line feeds included) has been trimmed from both ends of the section,
    itself trimmed.  Blank lines before the name are part of the white
    space that is trimmed away. *)
Definition section_name (part : string) : string :=
  TrimSpaceFunc (hd "" (Split (TrimSpaceFunc part) LF)).

(** The lines of the trimmed section that follow the name, each
    trimmed. *)
Definition section_lines (part : string) : list string :=
  map TrimSpaceFunc (tl (Split (TrimSpaceFunc part) LF)).

(** A connection-descriptor line begins with ["sdns:"]. *)
Definition is_descriptor (line : string) : bool := HasPrefix line "sdns:".

(** A comment is an empty line or one that begins with ["//"]. *)
Definition is_comment (line : string) : bool :=
  (len line =? 0) || HasPrefix line "//".

Definition descriptors (part : string) : list string :=
  List.filter is_descriptor (section_lines part).

(** The description: every other line, joined by line feeds. *)
Definition free_text (part : string) : string :=
  Join (List.filter (fun l => negb (is_descriptor l) && negb (is_comment l))
                    (section_lines part)) LF.

(** The section, once white space (line feeds included) has been trimmed
    from both its ends, has at least two lines, and the first of them is
    not empty.  The lines are counted after that trimming: a name that is
    followed by nothing, or by blank lines only, is a single line and does
    not have a body. *)
Definition has_name_and_body (part : string) : Prop :=
  (2 <= length (Split (TrimSpaceFunc part) LF))%nat /\ section_name part <> "".

(** What a section with a name and a body (in the sense of
    [has_name_and_body]) amounts to: an entry, or an
    entry-level error when the descriptor is missing (or shorter than six
    bytes), does not decode, or occurs twice. *)
Inductive entry : Type :=
| EntryError (msg : string)
| Entry (registeredServer : RegisteredServer).

Definition entry_of (prefix part : string) : entry :=
  let name := prefix ++ section_name part in
  match descriptors part with
  | [] => EntryError ("Missing stamp for server [" ++ name ++ "]")
  | [d] =>
      if len d <? 6
      then EntryError ("Missing stamp for server [" ++ name ++ "]")
      else
        match stamps_NewServerStampFromString d with
        | inl err =>
            EntryError ("Invalid or unsupported stamp [" ++ d ++ "]: "
                        ++ Error err)
        | inr stamp => Entry (mkRegisteredServer name stamp (free_text part))
        end
  | _ :: _ :: _ => EntryError ("Multiple stamps for server [" ++ name ++ "]")
  end.

(** The entries and the entry-level errors of a list of sections, each in
    the order of the sections. *)
Definition entries_of (prefix : string) (parts : list string)
  : list RegisteredServer :=
  omap (fun part => match entry_of prefix part with
                    | Entry rs => Some rs
                    | EntryError _ => None
                    end) parts.

Definition entry_errors_of (prefix : string) (parts : list string)
  : list string :=
  omap (fun part => match entry_of prefix part with
                    | Entry _ => None
                    | EntryError msg => Some msg
                    end) parts.

(** The sections of the content of [source]: what follows each ["## "]. *)
Definition sections (source : Source) : list string :=
  tl (Split (string_of_bytes (in_ source)) "## ").

(** The text of two sections, [A] with a name and a blank line only, and
    [B] with the descriptor [stamp]. *)
Definition blank_body_sections (stamp : string) : string :=
  "## A" ++ LF ++ LF ++ "## B" ++ LF ++ stamp ++ LF.

(** The text of one section whose marker is followed by a line feed: the
    first line that is not blank is [foo], the next is [stamp]. *)
Definition blank_name_section (stamp : string) : string :=
  "## " ++ LF ++ "foo" ++ LF ++ stamp ++ LF.

(** The text of two sections, [A] with the descriptor ["sdns://bad"] and
    [B] with the descriptor [stamp]. *)
Definition two_sections (stamp : string) : string :=
  "## A" ++ LF ++ "sdns://bad" ++ LF ++ "## B" ++ LF ++ stamp ++ LF.

(** *** The rest of the package *)

(** [Parse] returns what [parseV2] returns, or the process ends in
    [dlog.Fatal]. *)
Inductive parseOutcome : Type :=
| ParseReturns (registeredServers : list RegisteredServer) (err : option error)
| ParseFatal.

(** [Parse] *)
Definition Parse (source : Source) (prefix : string) : parseOutcome :=
  if format source =? SourceFormatV2
  then let '(registeredServers, err) := parseV2 source prefix in
       ParseReturns registeredServers err
  else ParseFatal.

(** The strings of a list that [url.Parse] accepts, parsed, in order. *)
Definition parsed_urls (l : list string) : list URL :=
  omap (fun urlStr => match url_Parse urlStr with
                      | inl _ => None
                      | inr srcURL => Some srcURL
                      end) l.

(** The content of [source] is empty or carries a signature that checks
    under the key of [source]. *)
Definition content_trusted (source : Source) : Prop :=
  in_ source = []
  \/ exists sig, checkSignature source (in_ source) sig = Returns None.

(** [source] is not due at [now]: [PrefetchSources] passes it over. *)
Definition not_due (source : Source) (now : Time) : Prop :=
  refresh source = 0 \/ now < refresh source.

(** A request of the mirror loop for [source]: a listed URL or the URL of
    its signature. *)
Definition mirror_request (source : Source) (r : URL) : Prop :=
  exists u, u ∈ urls source /\ (r = u \/ r = sigURL u).

End Sources.

(** A stamp as the public lists carry them. *)
Definition sample_stamp : string :=
  "sdns://AQcAAAAAAAAADTIxMi40Ny4yMjguMTM2IOgBuE6mBr-wusDOQ0RbsV66ZLAvo8SqMa4QY2oHkDJNHzIuZG5zY3J5cHQtY2VydC5mci5kbnNjcnlwdC5vcmc".

(** ** A small instance of the collaborators, for concrete runs

    The key is a word, the signature of [bin] under the key [k] is the text
    [k ++ ":" ++ bin], and a stamp decodes when it starts with
    ["sdns://A"]. *)
Module Toy.

Definition bad (msg : string) : error := ErrExternal msg.

#[export] Instance ext : Externals := {|
  PublicKey := string;
  Signature := string;
  ServerStamp := string;
  minisign_NewPublicKey := fun s =>
    if String.eqb s "" then inl (bad "empty key") else inr s;
  minisign_DecodeSignature := fun s =>
    if String.eqb s "" then inl (bad "empty signature") else inr s;
  minisign_Verify := fun k bin sg =>
    if String.eqb sg (k ++ ":" ++ string_of_bytes bin) then (true, None)
    else (false, Some (bad "signature does not match"));
  url_Parse := fun s =>
    if String.eqb s "" then inl (bad "empty url")
    else inr (mkURL "https" "mirror.example" s "");
  stamps_NewServerStampFromString := fun s =>
    if String.prefix "sdns://A" s then inr s else inl (bad "bad stamp");
  MaxHTTPBodyLength := 4000000
|}.

(** The signature file of [bin] under the key [k]. *)
Definition sign (k : string) (bin : bytes) : bytes :=
  bytes_of_string (k ++ ":" ++ string_of_bytes bin).

Definition mirror (path : string) : URL := mkURL "https" "mirror.example" path "".

Definition blobA : bytes := bytes_of_string "list A".
Definition blobB : bytes := bytes_of_string "list B".

(** A network on which nothing answers. *)
Definition net_down : URL -> Response := fun _ => GetFails (bad "unreachable").

(** A network with three mirrors: [/m1] is down, [/m2] serves [blobB]
    with a signature made for [blobA], [/m3] serves [blobB] signed. *)
Definition net3 : URL -> Response := fun u =>
  if String.eqb (Path u) "/m2" then GetBody blobB None
  else if String.eqb (Path u) "/m2.minisig" then GetBody (sign "K" blobA) None
  else if String.eqb (Path u) "/m3" then GetBody blobB None
  else if String.eqb (Path u) "/m3.minisig" then GetBody (sign "K" blobB) None
  else GetFails (bad "unreachable").

(** A disk that holds [blobA], signed under ["K"], written at [mtime]. *)
Definition disk (mtime : Time) : gmap string File :=
  <["cache.md" := mkFile blobA mtime]>
    (<["cache.md.minisig" := mkFile (sign "K" blobA) mtime]> ∅).

Definition world (fs : gmap string File) (nw : URL -> Response) (now : Time)
  : World := mkWorld fs ∅ ∅ [] nw [] now.

(** A source as [NewSource] makes it, before it is loaded. *)
Definition source (mirrors : list URL) (ttl : Duration) : Source :=
  mkSource "public" mirrors SourceFormatV2 [] (Some "K") "cache.md" ttl
           DefaultPrefetchDelay 0.

Definition t0 : Time := 1000000 * Hour.


(** Two sources that are due at [t0 + 24 * Hour]: the cache of [dueA] was
    written twenty-three hours and fifty minutes before, [dueB] has no
    cache and a mirror that verifies. *)
Definition dueA : Source :=
  mkSource "a" [mirror "/m1"] SourceFormatV2 [] (Some "K") "cache.md"
           DefaultPrefetchDelay DefaultPrefetchDelay t0.

Definition dueB : Source :=
  mkSource "b" [mirror "/m3"] SourceFormatV2 [] (Some "K") "other.md"
           DefaultPrefetchDelay DefaultPrefetchDelay t0.

Definition heapAB : gmap nat Source := <[1%nat := dueA]> (<[2%nat := dueB]> ∅).

Definition worldAB : World :=
  world (disk (t0 + 10 * Minute)) net3 (t0 + 24 * Hour).

(** A source whose content is [text]. *)
Definition loaded (text : string) : Source :=
  mkSource "public" [] SourceFormatV2 (bytes_of_string text) (Some "K")
           "cache.md" DefaultPrefetchDelay DefaultPrefetchDelay 0.

(** A disk that holds [blobB] next to the signature of [blobA]. *)
Definition disk_tampered (mtime : Time) : gmap string File :=
  <["cache.md" := mkFile blobB mtime]>
    (<["cache.md.minisig" := mkFile (sign "K" blobA) mtime]> ∅).

(** A source without a key, as [NewSource] returns it when the key does
    not parse, but with a URL. *)
Definition keyless : Source :=
  mkSource "public" [mirror "/m1"] SourceFormatV2 [] None "cache.md"
           DefaultPrefetchDelay DefaultPrefetchDelay 0.

End Toy.

(** * Facts *)

Section SourcesFacts.

Context `{Ext : Externals}.

(** ** Outcomes *)

Lemma bind_Returns {A B} (m : outcome A) (f : A -> outcome B) (b : B) :
  m ≫= f = Returns b <-> exists a, m = Returns a /\ f a = Returns b.
Proof.
  destruct m as [a|]; simpl; split.
  - intros H. exists a. auto.
  - intros (a' & Ha & Hf). inversion Ha. subst. exact Hf.
  - discriminate.
  - intros (a' & Ha & _). discriminate.
Qed.

Lemma bind_Panics {A B} (m : outcome A) (f : A -> outcome B) :
  m ≫= f = Panics <-> m = Panics \/ exists a, m = Returns a /\ f a = Panics.
Proof.
  destruct m as [a|]; simpl; split; eauto.
  - intros [H | (a' & Ha & Hf)]; [discriminate | congruence].
Qed.

(** ** Durations *)

Lemma wrap64_id (z : Z) : is_int64 z -> wrap64 z = z.
Proof.
  unfold is_int64, wrap64, minDuration, maxDuration. intros H.
  rewrite Z.mod_small; lia.
Qed.

Lemma Sub_Add (t : Time) (d : Duration) : is_int64 d -> Sub (Add t d) t = d.
Proof.
  unfold is_int64, Sub, Add. intros H.
  replace (t + d - t) with d by lia.
  destruct (Z.ltb_spec d minDuration); [lia |].
  destruct (Z.ltb_spec maxDuration d); [lia | reflexivity].
Qed.

Lemma Sub_int64 (t u : Time) : is_int64 (Sub t u).
Proof.
  unfold is_int64, Sub.
  destruct (Z.ltb_spec (t - u) minDuration);
    [unfold minDuration, maxDuration; lia |].
  destruct (Z.ltb_spec maxDuration (t - u));
    unfold minDuration, maxDuration in *; lia.
Qed.

Lemma MinimumPrefetchInterval_int64 : is_int64 MinimumPrefetchInterval.
Proof. unfold is_int64; vm_compute; split; discriminate. Qed.

Lemma DefaultPrefetchDelay_int64 : is_int64 DefaultPrefetchDelay.
Proof. unfold is_int64; vm_compute; split; discriminate. Qed.

(** ** The world under reads and requests *)

Lemma string_length_append (a b : string) :
  String.length (a ++ b) = (String.length a + String.length b)%nat.
Proof. induction a as [|c a IH]; simpl; [reflexivity | rewrite IH; reflexivity]. Qed.

Lemma sigFile_neq (f : string) : sigFile f <> f.
Proof.
  unfold sigFile. intros H.
  apply (f_equal String.length) in H.
  rewrite string_length_append in H. simpl in H. lia.
Qed.

Lemma download_net (w1 w2 : World) (u : URL) :
  net w1 = net w2 -> download w1 u = download w2 u.
Proof. unfold download. intros ->. reflexivity. Qed.

(** Two sources that agree on the key agree on every signature check. *)
Lemma checkSignature_key_eq (s1 s2 : Source) (bin sig : bytes) :
  minisignKey s1 = minisignKey s2 ->
  checkSignature s1 bin sig = checkSignature s2 bin sig.
Proof. unfold checkSignature. intros ->. reflexivity. Qed.

Lemma checkSignature_returns (source : Source) (bin sig : bytes) :
  is_Some (minisignKey source) ->
  exists r, checkSignature source bin sig = Returns r.
Proof.
  intros [k Hk]. unfold checkSignature. rewrite Hk.
  destruct (minisign_DecodeSignature _); eauto.
Qed.

Lemma checkSignature_ok_key (source : Source) (bin sig : bytes) :
  checkSignature source bin sig = Returns None -> is_Some (minisignKey source).
Proof.
  unfold checkSignature.
  destruct (minisign_DecodeSignature _); [discriminate |].
  destruct (minisignKey source); [eauto | discriminate].
Qed.

Lemma same_config_refl (s : Source) : same_config s s.
Proof. unfold same_config; tauto. Qed.

Lemma same_config_trans (s1 s2 s3 : Source) :
  same_config s1 s2 -> same_config s2 s3 -> same_config s1 s3.
Proof. unfold same_config. intuition congruence. Qed.

Lemma same_config_set_in (s : Source) (b : bytes) : same_config s (set_in s b).
Proof. unfold same_config; simpl; tauto. Qed.

Lemma same_config_set_refresh (s : Source) (t : Time) :
  same_config s (set_refresh s t).
Proof. unfold same_config; simpl; tauto. Qed.

Lemma same_config_deferred (s : Source) (now : Time) (d : Duration) :
  same_config s (deferred_refresh s now d).
Proof.
  unfold deferred_refresh. destruct (_ <? _);
    [apply same_config_set_refresh | apply same_config_refl].
Qed.

Lemma in_deferred (s : Source) (now : Time) (d : Duration) :
  in_ (deferred_refresh s now d) = in_ s.
Proof. unfold deferred_refresh. destruct (_ <? _); reflexivity. Qed.

Lemma deferred_refresh_urls (s : Source) (now : Time) (d : Duration) :
  urls s <> [] -> deferred_refresh s now d = set_refresh s (Add now d).
Proof.
  unfold deferred_refresh. intros H.
  destruct (Z.ltb_spec 0 (Z.of_nat (length (urls s)))); [reflexivity |].
  destruct (urls s); [congruence | simpl in *; lia].
Qed.

Lemma deferred_refresh_no_urls (s : Source) (now : Time) (d : Duration) :
  urls s = [] -> deferred_refresh s now d = s.
Proof. unfold deferred_refresh. intros ->. reflexivity. Qed.

(** ** [fetchFromCache] *)

Lemma fetchFromCache_inv (source : Source) (now : Time) (w : World)
    (d : Duration) (e : option error) (s' : Source) :
  fetchFromCache source now w = Returns (d, e, s') ->
  fromCache source now w d e s'.
Proof.
  unfold fetchFromCache.
  destruct (ReadFile w (cacheFile source)) as [e1|bin] eqn:Hbin.
  { intros [= <- <- <-]. constructor. auto. }
  destruct (ReadFile w (sigFile (cacheFile source))) as [e2|sig] eqn:Hsig.
  { intros [= <- <- <-]. constructor. eauto. }
  intros H. apply bind_Returns in H as (r & Hchk & H).
  destruct r as [e3|].
  { injection H as <- <- <-. constructor. right. right. eauto. }
  simpl in H.
  destruct (Stat w (cacheFile source)) as [e4|mtime] eqn:Hstat.
  { injection H as <- <- <-. eapply fromCache_nostat; eauto. }
  assert (Hv : cache_verified source w bin mtime)
    by (unfold cache_verified; eauto).
  destruct (Z.ltb_spec (Sub now mtime) (cacheTTL source));
    injection H as <- <- <-.
  - apply fromCache_fresh; assumption.
  - eapply fromCache_stale; eassumption.
Qed.

Lemma fetchFromCache_returns (source : Source) (now : Time) (w : World) :
  is_Some (minisignKey source) ->
  exists d e s', fetchFromCache source now w = Returns (d, e, s').
Proof.
  intros Hk. unfold fetchFromCache.
  destruct (ReadFile w (cacheFile source)) as [e1|bin]; [eauto |].
  destruct (ReadFile w (sigFile (cacheFile source))) as [e2|sig]; [eauto |].
  destruct (checkSignature_returns source bin sig Hk) as [r ->]. simpl.
  destruct r; [eauto |].
  destruct (Stat w (cacheFile source)); [eauto |].
  destruct (_ <? _); eauto.
Qed.

Lemma fetchFromCache_verified (source : Source) (now : Time) (w : World)
    (bin : bytes) (mtime : Time) :
  cache_verified source w bin mtime ->
  fetchFromCache source now w =
  Returns (if Sub now mtime <? cacheTTL source
           then (dsub (prefetchDelay source) (Sub now mtime), None, set_in source bin)
           else (0, None, set_in source bin)).
Proof.
  intros (Hbin & (sig & Hsig & Hchk) & Hstat).
  unfold fetchFromCache. rewrite Hbin, Hsig, Hchk. simpl. rewrite Hstat.
  destruct (_ <? _); reflexivity.
Qed.

Lemma fromCache_source (source : Source) (now : Time) (w : World)
    (d : Duration) (e : option error) (s' : Source) :
  fromCache source now w d e s' ->
  same_config source s'
  /\ refresh s' = refresh source
  /\ (in_ s' = in_ source \/ accepted source w (in_ s'))
  /\ (is_Some e -> d = 0).
Proof.
  intros H. destruct H as [e0 H|bin sig e0 H1 H2 H3 H4|bin mtime Hv Hlt|bin mtime Hv Hge].
  - split; [apply same_config_refl |]. repeat split; auto.
  - split; [apply same_config_set_in |]. repeat split; auto.
    right. simpl. eapply accepted_cache; eauto.
  - split; [apply same_config_set_in |]. repeat split; auto.
    + right. simpl. destruct Hv as (Hb & (sig & Hs & Hc) & _).
      eapply accepted_cache; eauto.
    + intros [? [=]].
  - split; [apply same_config_set_in |]. repeat split; auto.
    right. simpl. destruct Hv as (Hb & (sig & Hs & Hc) & _).
    eapply accepted_cache; eauto.
Qed.

(** ** The mirror loop *)

Lemma with_fetched_twice (w : World) (a b : list URL) :
  with_fetched (with_fetched w a) b = with_fetched w b.
Proof. reflexivity. Qed.

Lemma with_fetched_id (w : World) : with_fetched w (fetched w) = w.
Proof. destruct w; reflexivity. Qed.

Lemma mirror_verifies_config (s1 s2 : Source) (w1 w2 : World) (u : URL)
    (bin sig : bytes) :
  minisignKey s1 = minisignKey s2 -> net w1 = net w2 ->
  mirror_verifies s1 w1 u bin sig -> mirror_verifies s2 w2 u bin sig.
Proof.
  intros Hk Hn (H1 & H2 & H3). unfold mirror_verifies.
  rewrite <- (download_net w1 w2 u Hn), <- (download_net w1 w2 (sigURL u) Hn).
  rewrite <- (checkSignature_key_eq s1 s2 bin sig Hk). auto.
Qed.

(** One turn of the loop on a mirror that verifies: the loop is left. *)
Lemma fetchLoop_verifies (source : Source) (w0 w : World) (u : URL)
    (rest : list URL) (bin sig b s : bytes) (err : option error) :
  net w = net w0 ->
  mirror_verifies source w0 u b s ->
  fetchLoop source (u :: rest) bin sig err w =
  Returns (b, s, None, with_fetched w (fetched w ++ [u; sigURL u])).
Proof.
  intros Hn (H1 & H2 & H3). simpl. unfold fetchFromURL.
  rewrite (download_net w w0 u Hn), H1.
  rewrite (download_net (with_fetched w _) w0 (sigURL u) Hn), H2.
  rewrite H3. simpl. rewrite <- app_assoc. reflexivity.
Qed.

(** One turn of the loop on a mirror that fails: the loop goes on with the
    error of this mirror. *)
Lemma fetchLoop_fails (source : Source) (w0 w : World) (u : URL)
    (rest : list URL) (bin sig : bytes) (err : option error) (e : error) :
  net w = net w0 ->
  mirror_fails source w0 u e ->
  exists bin' sig',
    fetchLoop source (u :: rest) bin sig err w =
    fetchLoop source rest bin' sig' (Some e)
              (with_fetched w (fetched w ++ requests w0 u)).
Proof.
  intros Hn H. simpl. unfold fetchFromURL, requests.
  rewrite (download_net w w0 u Hn).
  rewrite (download_net (with_fetched w _) w0 (sigURL u) Hn).
  destruct H as [(b & H1) | [(b1 & b2 & H1 & H2) | (b1 & b2 & H1 & H2 & H3)]].
  - rewrite H1. eauto.
  - rewrite H1, H2. simpl. rewrite <- app_assoc. eauto.
  - rewrite H1, H2, H3. simpl. rewrite <- app_assoc. eauto.
Qed.

Lemma fetchLoop_first_verified (source : Source) (w0 : World)
    (pre post : list URL) (u : URL) (b s : bytes) :
  Forall (fun m => exists e, mirror_fails source w0 m e) pre ->
  mirror_verifies source w0 u b s ->
  forall (w : World) (bin sig : bytes) (err : option error),
    net w = net w0 ->
    fetchLoop source (pre ++ u :: post) bin sig err w =
    Returns (b, s, None,
             with_fetched w (fetched w ++ concat (map (requests w0) pre)
                                       ++ [u; sigURL u])).
Proof.
  intros Hpre Hu. induction Hpre as [|m pre [e Hm] _ IH]; intros w bin sig err Hn.
  - cbn [app concat map].
    apply fetchLoop_verifies with (w0 := w0); assumption.
  - destruct (fetchLoop_fails source w0 w m (pre ++ u :: post) bin sig err e Hn Hm)
      as (bin' & sig' & Heq).
    cbn [app concat map] in *. rewrite Heq.
    rewrite IH by exact Hn. cbn [fetched with_fetched].
    rewrite !app_assoc. reflexivity.
Qed.

Lemma fetchLoop_all_fail (source : Source) (w0 : World) (pre : list URL)
    (u : URL) (e : error) :
  Forall (fun m => exists e, mirror_fails source w0 m e) pre ->
  mirror_fails source w0 u e ->
  forall (w : World) (bin sig : bytes) (err : option error),
    net w = net w0 ->
    exists bin' sig',
      fetchLoop source (pre ++ [u]) bin sig err w =
      Returns (bin', sig', Some e,
               with_fetched w (fetched w ++ concat (map (requests w0) (pre ++ [u])))).
Proof.
  intros Hpre Hu. induction Hpre as [|m pre [e' Hm] _ IH]; intros w bin sig err Hn.
  - destruct (fetchLoop_fails source w0 w u [] bin sig err e Hn Hu)
      as (bin' & sig' & Heq).
    cbn [app concat map] in *. rewrite Heq. cbn [fetchLoop].
    rewrite app_nil_r. eauto.
  - destruct (fetchLoop_fails source w0 w m (pre ++ [u]) bin sig err e' Hn Hm)
      as (bin' & sig' & Heq).
    cbn [app concat map] in *. rewrite Heq.
    destruct (IH (with_fetched w (fetched w ++ requests w0 m)) bin' sig' (Some e') Hn)
      as (bin'' & sig'' & ->).
    exists bin'', sig''. cbn [fetched with_fetched].
    rewrite !app_assoc. reflexivity.
Qed.

(** Every mirror verifies or fails, or the check panics. *)
Lemma mirror_cases (source : Source) (w : World) (u : URL) :
  is_Some (minisignKey source) ->
  (exists b s, mirror_verifies source w u b s)
  \/ (exists e, mirror_fails source w u e).
Proof.
  intros Hk. unfold mirror_verifies, mirror_fails.
  destruct (download w u) as [b [e|]] eqn:H1; [right; eauto |].
  destruct (download w (sigURL u)) as [s [e|]] eqn:H2; [right; eauto 10 |].
  destruct (checkSignature_returns source b s Hk) as [[e|] H3].
  - right. exists e. right. right. eauto.
  - left. eauto.
Qed.

(** What a returning loop leaves behind: the world differs in the requests
    only, and a nil [err] means that a listed mirror verified, unless the
    loop had nothing to do. *)
Lemma fetchLoop_inv (source : Source) (l : list URL) :
  forall (bin sig : bytes) (err : option error) (w : World)
         (bin' sig' : bytes) (err' : option error) (w' : World),
    fetchLoop source l bin sig err w = Returns (bin', sig', err', w') ->
    (exists reqs, w' = with_fetched w (fetched w ++ reqs)
                  /\ (l <> [] -> reqs <> []))
    /\ (err' = None ->
        (l = [] /\ err = None)
        \/ exists u, u ∈ l /\ mirror_verifies source w u bin' sig').
Proof.
  induction l as [|u rest IH]; intros bin sig err w bin' sig' err' w' H.
  - simpl in H. injection H as <- <- <- <-. split.
    + exists []. rewrite app_nil_r, with_fetched_id. split; [reflexivity | congruence].
    + auto.
  - simpl in H. unfold fetchFromURL in H.
    destruct (download w u) as [b e1] eqn:H1.
    assert (Hgo : forall b0 s0 e0 reqs0,
               reqs0 <> [] ->
               fetchLoop source rest b0 s0 (Some e0)
                         (with_fetched w (fetched w ++ reqs0))
               = Returns (bin', sig', err', w') ->
               (exists reqs, w' = with_fetched w (fetched w ++ reqs)
                             /\ (u :: rest <> [] -> reqs <> []))
               /\ (err' = None ->
                   (u :: rest = [] /\ err = None)
                   \/ exists m, m ∈ u :: rest /\ mirror_verifies source w m bin' sig')).
    { intros b0 s0 e0 reqs0 Hne Hrec.
      apply IH in Hrec as [(reqs & -> & _) Hok]. split.
      - exists (reqs0 ++ reqs)%list. simpl. rewrite app_assoc. split; [reflexivity |].
        intros _. destruct reqs0; [congruence | discriminate].
      - intros Hnone. destruct (Hok Hnone) as [[_ [=]] | (m & Hin & Hv)].
        right. exists m. split; [right; exact Hin |].
        eapply mirror_verifies_config; [reflexivity | | exact Hv]. reflexivity. }
    destruct e1 as [e1|].
    { eapply (Hgo b sig e1 [u]); [discriminate | exact H]. }
    destruct (download (with_fetched w (fetched w ++ [u])) (sigURL u))
      as [s e2] eqn:H2.
    destruct e2 as [e2|].
    { simpl in H. rewrite <- app_assoc in H.
      eapply (Hgo b s e2 [u; sigURL u]); [discriminate | exact H]. }
    apply bind_Returns in H as (r & Hchk & H).
    destruct r as [e3|].
    { simpl in H. rewrite <- app_assoc in H.
      eapply (Hgo b s e3 [u; sigURL u]); [discriminate | exact H]. }
    injection H as <- <- <- <-. split.
    + exists [u; sigURL u]. simpl. rewrite <- app_assoc.
      split; [reflexivity | discriminate].
    + intros _. right. exists u. split; [left |].
      unfold mirror_verifies. auto.
Qed.

Lemma fetchLoop_returns (source : Source) (l : list URL) :
  is_Some (minisignKey source) ->
  forall (bin sig : bytes) (err : option error) (w : World),
    exists r, fetchLoop source l bin sig err w = Returns r.
Proof.
  intros Hk. induction l as [|u rest IH]; intros bin sig err w; simpl; [eauto |].
  unfold fetchFromURL.
  destruct (download w u) as [b [e1|]]; [apply IH |].
  destruct (download _ (sigURL u)) as [s [e2|]]; [apply IH |].
  destruct (checkSignature_returns source b s Hk) as [[e|] ->]; simpl; [apply IH | eauto].
Qed.

(** ** [fetchWithCache] *)

Lemma fetchWithCache_inv (source : Source) (now : Time) (w : World)
    (d : Duration) (e : option error) (s' : Source) (w' : World) :
  fetchWithCache source now w = Returns (d, e, s', w') ->
  withCache source now w d e s' w'.
Proof.
  unfold fetchWithCache. intros H.
  apply bind_Returns in H as ([[d0 e0] s1] & Hc & H).
  apply fetchFromCache_inv in Hc.
  destruct (fromCache_source _ _ _ _ _ _ Hc) as (Hcfg & _ & _ & Hd0).
  destruct Hcfg as (_ & Hurls & _ & _ & _ & _ & Hpd).
  destruct (urls s1) as [|u0 rest] eqn:Hu.
  { (* no URL *)
    assert (Hnil : urls source = []) by congruence.
    simpl in H. rewrite andb_true_r in H.
    destruct (bool_decide (is_Some e0)).
    - injection H as <- <- <- <-. apply withCache_no_url; assumption.
    - rewrite deferred_refresh_no_urls in H by exact Hu.
      injection H as <- <- <- <-. apply withCache_no_url; assumption. }
  assert (Hne : urls source <> []) by (rewrite <- Hurls; discriminate).
  assert (Hlen : (Z.of_nat (length (u0 :: rest)) =? 0) = false).
  { apply Z.eqb_neq. simpl. lia. }
  rewrite Hlen, andb_false_r, orb_false_l in H.
  destruct (Z.ltb_spec 0 d0) as [Hpos|Hnpos].
  { rewrite deferred_refresh_urls in H by (rewrite Hu; discriminate).
    injection H as <- <- <- <-.
    destruct e0 as [e0|]; [specialize (Hd0 (ltac:(eauto))); lia |].
    apply withCache_fresh; assumption. }
  apply bind_Returns in H as ([[[bin sig] e1] w1] & Hloop & H).
  rewrite <- Hu in Hloop.
  destruct e1 as [e1|].
  - rewrite deferred_refresh_urls in H by (rewrite Hu; discriminate).
    injection H as <- <- <- <-.
    eapply withCache_mirrors_failed; eassumption.
  - destruct (writeToCache (set_in s1 bin) bin sig w1) as [r w2] eqn:Hw.
    rewrite deferred_refresh_urls in H by (simpl; rewrite Hu; discriminate).
    injection H as <- <- <- <-.
    change (prefetchDelay (set_in s1 bin)) with (prefetchDelay s1).
    rewrite Hpd.
    replace w2 with (snd (writeToCache (set_in s1 bin) bin sig w1))
      by (rewrite Hw; reflexivity).
    eapply withCache_mirror; eassumption.
Qed.

Lemma fetchWithCache_returns (source : Source) (now : Time) (w : World) :
  is_Some (minisignKey source) ->
  exists d e s' w', fetchWithCache source now w = Returns (d, e, s', w').
Proof.
  intros Hk. unfold fetchWithCache.
  destruct (fetchFromCache_returns source now w Hk) as (d0 & e0 & s1 & Hc).
  rewrite Hc. simpl.
  apply fetchFromCache_inv, fromCache_source in Hc as (Hcfg & _).
  destruct (_ && _); [eauto |].
  destruct (_ || _); [eauto |].
  assert (Hk1 : is_Some (minisignKey s1)).
  { destruct Hcfg as (_ & _ & _ & -> & _). exact Hk. }
  destruct (fetchLoop_returns s1 (urls s1) Hk1 [] [] e0 w) as ([[[bin sig] e1] w1] & ->).
  simpl. destruct e1; [eauto |].
  destruct (writeToCache _ _ _ _). eauto.
Qed.

(** [writeToCache] touches the files and the list of writes only. *)
Lemma WriteFile_world (w : World) (path : string) (data : bytes) :
  net (snd (WriteFile w path data)) = net w
  /\ fetched (snd (WriteFile w path data)) = fetched w
  /\ clock (snd (WriteFile w path data)) = clock w
  /\ write_deny (snd (WriteFile w path data)) = write_deny w
  /\ stat_deny (snd (WriteFile w path data)) = stat_deny w.
Proof. unfold WriteFile. destruct (decide _); simpl; auto. Qed.

Lemma writeToCache_world (source : Source) (bin sig : bytes) (w : World) :
  net (snd (writeToCache source bin sig w)) = net w
  /\ fetched (snd (writeToCache source bin sig w)) = fetched w
  /\ clock (snd (writeToCache source bin sig w)) = clock w.
Proof.
  unfold writeToCache.
  pose proof (WriteFile_world w (cacheFile source) bin) as H1.
  destruct (WriteFile w (cacheFile source) bin) as [[e|] w1]; simpl in *;
    [intuition |].
  pose proof (WriteFile_world w1 (sigFile (cacheFile source)) sig) as H2.
  destruct (WriteFile w1 _ sig) as [[e|] w2]; simpl in *; intuition congruence.
Qed.

(** What a returning call leaves of the source: its configuration is
    kept, and its content is the old one or accepted content. *)
Lemma withCache_source (source : Source) (now : Time) (w : World)
    (d : Duration) (e : option error) (s' : Source) (w' : World) :
  withCache source now w d e s' w' ->
  same_config source s'
  /\ (in_ s' = in_ source \/ accepted source w (in_ s')).
Proof.
  intros H.
  destruct H as [d e s1 Hc Hu|d s1 Hc Hu Hd|d e0 s1 bin sig e w1 Hc Hu Hd Hl
                 |d e0 s1 bin sig w1 Hc Hu Hd Hl];
    destruct (fromCache_source _ _ _ _ _ _ Hc) as (Hcfg & _ & Hin & _).
  - auto.
  - split; [|exact Hin].
    eapply same_config_trans; [exact Hcfg | apply same_config_set_refresh].
  - split; [|exact Hin].
    eapply same_config_trans; [exact Hcfg | apply same_config_set_refresh].
  - split.
    + eapply same_config_trans; [exact Hcfg |].
      eapply same_config_trans; [apply same_config_set_in | apply same_config_set_refresh].
    + right. simpl.
      apply fetchLoop_inv in Hl as [_ Hok].
      destruct Hcfg as (_ & Hurls & _ & Hkey & _).
      destruct (Hok eq_refl) as [[Hnil _] | (u & Hin' & Hv)]; [congruence |].
      apply accepted_mirror with (u := u) (sig := sig); [congruence |].
      eapply mirror_verifies_config; [exact Hkey | reflexivity | exact Hv].
Qed.

(** ** [NewSource] *)

Lemma NewSource_returns (name : string) (urls : list string)
    (minisignKeyStr cacheFile formatStr : string) (refreshDelay : Duration)
    (w : World) :
  exists source err w',
    NewSource name urls minisignKeyStr cacheFile formatStr refreshDelay w
    = Returns (source, err, w')
    /\ cacheTTL source = Z.max refreshDelay DefaultPrefetchDelay
    /\ prefetchDelay source = DefaultPrefetchDelay
    /\ (in_ source = [] \/ accepted source w (in_ source)).
Proof.
  unfold NewSource.
  assert (Hmax : (if refreshDelay <? DefaultPrefetchDelay
                  then DefaultPrefetchDelay else refreshDelay)
                 = Z.max refreshDelay DefaultPrefetchDelay).
  { destruct (Z.ltb_spec refreshDelay DefaultPrefetchDelay); lia. }
  rewrite Hmax.
  destruct (String.eqb formatStr "v2").
  2:{ do 3 eexists. split; [reflexivity |]. simpl. auto. }
  destruct (minisign_NewPublicKey minisignKeyStr) as [e|key].
  { do 3 eexists. split; [reflexivity |]. simpl. auto. }
  set (s0 := parseURLs _ _).
  assert (Hk : is_Some (minisignKey s0)) by (simpl; eauto).
  destruct (fetchWithCache_returns s0 (timeNow w) w Hk) as (d & e & s' & w' & Hf).
  rewrite Hf. simpl. do 3 eexists. split; [reflexivity |].
  apply fetchWithCache_inv, withCache_source in Hf as (Hcfg & Hin).
  destruct Hcfg as (_ & Hurls & _ & Hkey & Hcf & Httl & Hpd).
  rewrite Httl, Hpd. repeat split; try reflexivity.
  destruct Hin as [Hin | Hacc]; [left; rewrite Hin; reflexivity | right].
  destruct Hacc as [sig H1 H2 H3 | u sig H1 H2].
  - apply accepted_cache with (sig := sig).
    + rewrite Hcf. exact H1.
    + rewrite Hcf. exact H2.
    + erewrite checkSignature_key_eq; [exact H3 | exact Hkey].
  - apply accepted_mirror with (u := u) (sig := sig); [rewrite Hurls; exact H1 |].
    eapply mirror_verifies_config; [symmetry; exact Hkey | reflexivity | exact H2].
Qed.

Lemma cache_verified_config (s1 s2 : Source) (w : World) (bin : bytes)
    (mtime : Time) :
  same_config s1 s2 -> cache_verified s1 w bin mtime ->
  cache_verified s2 w bin mtime.
Proof.
  intros (_ & _ & _ & Hk & Hf & _) (H1 & (sig & H2 & H3) & H4).
  unfold cache_verified. rewrite Hf. split; [exact H1 |]. split; [|exact H4].
  exists sig. split; [exact H2 |].
  rewrite (checkSignature_key_eq s2 s1 bin sig Hk). exact H3.
Qed.

(** A cache that verifies and yields a positive delay, or a source without
    a URL: the call adopts the cached blob and leaves the world alone. *)
Lemma fetchWithCache_fresh (source : Source) (now : Time) (w : World)
    (bin : bytes) (mtime : Time) :
  cache_verified source w bin mtime ->
  Sub now mtime < cacheTTL source ->
  urls source = [] \/ 0 < dsub (prefetchDelay source) (Sub now mtime) ->
  fetchWithCache source now w =
  Returns (dsub (prefetchDelay source) (Sub now mtime), None,
           deferred_refresh (set_in source bin) now
                            (dsub (prefetchDelay source) (Sub now mtime)), w).
Proof.
  intros Hv Hlt Hor. unfold fetchWithCache.
  rewrite (fetchFromCache_verified source now w bin mtime Hv).
  destruct (Z.ltb_spec (Sub now mtime) (cacheTTL source)); [|lia].
  simpl. destruct Hor as [Hnil | Hpos].
  - rewrite Hnil. reflexivity.
  - destruct (Z.ltb_spec 0 (dsub (prefetchDelay source) (Sub now mtime))); [|lia].
    rewrite orb_true_r. reflexivity.
Qed.

(** No cache file and at least one URL: the call is the mirror loop. *)
Lemma fetchWithCache_miss (source : Source) (now : Time) (w : World)
    (e0 : error) :
  ReadFile w (cacheFile source) = inl e0 ->
  urls source <> [] ->
  fetchWithCache source now w =
  '(bin, sig, err, w1) ← fetchLoop source (urls source) [] [] (Some e0) w;
  match err with
  | Some _ =>
      Returns (MinimumPrefetchInterval, err,
               set_refresh source (Add now MinimumPrefetchInterval), w1)
  | None =>
      Returns (prefetchDelay source, None,
               set_refresh (set_in source bin) (Add now (prefetchDelay source)),
               snd (writeToCache (set_in source bin) bin sig w1))
  end.
Proof.
  intros Hr Hu. unfold fetchWithCache, fetchFromCache. rewrite Hr. simpl.
  destruct (urls source) as [|u0 rest] eqn:Hurls; [congruence |].
  replace (Z.of_nat (length (u0 :: rest)) =? 0) with false
    by (symmetry; apply Z.eqb_neq; simpl; lia).
  rewrite Z.ltb_irrefl. cbn [orb].
  destruct (fetchLoop source (u0 :: rest) [] [] (Some e0) w)
    as [[[[bin sig] err] w1]|]; simpl; [|reflexivity].
  destruct err.
  - rewrite deferred_refresh_urls by (rewrite Hurls; discriminate). reflexivity.
  - destruct (writeToCache _ _ _ _) as [r w2]. simpl.
    rewrite deferred_refresh_urls by (simpl; rewrite Hurls; discriminate).
    reflexivity.
Qed.

(** ** The claims *)

(** C1.  Trust invariant: whenever [fetchWithCache] (and so [NewSource],
    which loads through it, and [fetchFromCache], its first step) returns,
    the content [in] of the source is what it was before the call, or it
    is the cached blob or the blob of a listed mirror, and the signature
    that came with that blob checked under the key of the source.  With a
    key the call always returns. *)
Theorem content_only_after_verification (source : Source) (now : Time)
    (w : World) :
  (is_Some (minisignKey source) ->
   exists d e s' w', fetchWithCache source now w = Returns (d, e, s', w'))
  /\ (forall d e s' w',
        fetchWithCache source now w = Returns (d, e, s', w') ->
        minisignKey s' = minisignKey source
        /\ (in_ s' = in_ source \/ accepted source w (in_ s')))
  /\ (forall d e s',
        fetchFromCache source now w = Returns (d, e, s') ->
        in_ s' = in_ source \/ accepted source w (in_ s')).
Proof.
  split; [apply fetchWithCache_returns |]. split.
  - intros d e s' w' H.
    apply fetchWithCache_inv, withCache_source in H as (Hcfg & Hin).
    split; [apply Hcfg | exact Hin].
  - intros d e s' H.
    apply fetchFromCache_inv, fromCache_source in H. tauto.
Qed.

(** C3, amended.  When the cached pair verifies, its age is below
    [cacheTTL] at both calls, and the source has no URL or
    [prefetchDelay - elapsed] is positive at both calls, two calls of
    [fetchWithCache] in succession both return without error, both leave
    the cached blob as content, and both leave the world as it was: no
    request is made and nothing is written. *)
Theorem fresh_cache_resolve_twice (source : Source) (now1 now2 : Time)
    (w : World) (bin : bytes) (mtime : Time) :
  cache_verified source w bin mtime ->
  Sub now1 mtime < cacheTTL source ->
  Sub now2 mtime < cacheTTL source ->
  urls source = []
  \/ (0 < dsub (prefetchDelay source) (Sub now1 mtime)
      /\ 0 < dsub (prefetchDelay source) (Sub now2 mtime)) ->
  exists d1 d2 s1 s2,
    fetchWithCache source now1 w = Returns (d1, None, s1, w)
    /\ fetchWithCache s1 now2 w = Returns (d2, None, s2, w)
    /\ in_ s1 = bin /\ in_ s2 = bin.
Proof.
  intros Hv H1 H2 Hor.
  assert (Hor1 : urls source = []
                 \/ 0 < dsub (prefetchDelay source) (Sub now1 mtime)) by tauto.
  pose proof (fetchWithCache_fresh source now1 w bin mtime Hv H1 Hor1) as Hf1.
  set (d1 := dsub (prefetchDelay source) (Sub now1 mtime)) in *.
  set (s1 := deferred_refresh (set_in source bin) now1 d1) in *.
  assert (Hcfg : same_config source s1).
  { eapply same_config_trans;
      [apply same_config_set_in | apply same_config_deferred]. }
  pose proof (cache_verified_config source s1 w bin mtime Hcfg Hv) as Hv1.
  destruct Hcfg as (_ & Hurls & _ & _ & _ & Httl & Hpd).
  assert (Hf2 := fetchWithCache_fresh s1 now2 w bin mtime Hv1).
  rewrite Httl, Hpd, Hurls in Hf2.
  specialize (Hf2 H2 (ltac:(tauto))).
  do 4 eexists. split; [exact Hf1 |]. split; [exact Hf2 |].
  subst s1. rewrite !in_deferred. split; reflexivity.
Qed.

(** C4.  A source with a URL whose call to [fetchWithCache] returns an
    error (the mirrors all failed) has its delay and its next refresh set
    to the minimum interval: [refresh - now] is exactly ten minutes, hence
    positive. *)
Theorem failed_refresh_waits_minimum (source : Source) (now : Time)
    (w : World) (d : Duration) (e : error) (s' : Source) (w' : World) :
  urls source <> [] ->
  fetchWithCache source now w = Returns (d, Some e, s', w') ->
  d = MinimumPrefetchInterval
  /\ refresh s' = Add now MinimumPrefetchInterval
  /\ Sub (refresh s') now = 10 * Minute
  /\ 0 < Sub (refresh s') now.
Proof.
  intros Hu H. apply fetchWithCache_inv in H.
  inversion H; subst; try congruence.
  simpl. rewrite Sub_Add by apply MinimumPrefetchInterval_int64.
  repeat split; reflexivity.
Qed.

(** C5.  The mirror loop takes the URLs in the listed order.  A mirror
    that fails (blob or signature not downloaded, or signature check
    failed) makes it go on with the next; at the first mirror whose pair
    verifies it stops, returns that pair and has requested nothing from
    the mirrors after it; when every mirror fails it returns the error of
    the last one.  For the list [m1; m2; m3] where [m1] cannot be
    downloaded, [m2] has a signature that does not check and [m3]
    verifies, the result is the blob of [m3], and the requests are those
    to [m1], to [m2] and its signature, then to [m3] and its signature.
    Through [fetchWithCache], on a source without a cache file, the
    verified blob becomes the content and exhaustion is the error
    returned. *)
Theorem mirrors_tried_in_order (source : Source) (w : World)
    (bin0 sig0 : bytes) (err0 : option error) :
  (forall pre u post b s,
      Forall (fun m => exists e, mirror_fails source w m e) pre ->
      mirror_verifies source w u b s ->
      fetchLoop source (pre ++ u :: post) bin0 sig0 err0 w =
      Returns (b, s, None,
               with_fetched w (fetched w ++ concat (map (requests w) pre)
                                         ++ [u; sigURL u])))
  /\ (forall pre u e,
         Forall (fun m => exists e, mirror_fails source w m e) pre ->
         mirror_fails source w u e ->
         exists b s,
           fetchLoop source (pre ++ [u]) bin0 sig0 err0 w =
           Returns (b, s, Some e,
                    with_fetched w (fetched w
                                      ++ concat (map (requests w) (pre ++ [u])))))
  /\ (forall m1 m2 m3 e1 e2 b1 b2 s2 b3 s3,
         download w m1 = (b1, Some e1) ->
         download w m2 = (b2, None) ->
         download w (sigURL m2) = (s2, None) ->
         checkSignature source b2 s2 = Returns (Some e2) ->
         mirror_verifies source w m3 b3 s3 ->
         fetchLoop source [m1; m2; m3] bin0 sig0 err0 w =
         Returns (b3, s3, None,
                  with_fetched w (fetched w ++ [m1; m2; sigURL m2; m3; sigURL m3])))
  /\ (forall now e0 pre u post b s,
         ReadFile w (cacheFile source) = inl e0 ->
         urls source = (pre ++ u :: post)%list ->
         Forall (fun m => exists e, mirror_fails source w m e) pre ->
         mirror_verifies source w u b s ->
         exists s' w',
           fetchWithCache source now w = Returns (prefetchDelay source, None, s', w')
           /\ in_ s' = b
           /\ fetched w' = (fetched w ++ concat (map (requests w) pre)
                                      ++ [u; sigURL u])%list)
  /\ (forall now e0 pre u e,
         ReadFile w (cacheFile source) = inl e0 ->
         urls source = (pre ++ [u])%list ->
         Forall (fun m => exists e, mirror_fails source w m e) pre ->
         mirror_fails source w u e ->
         exists s' w',
           fetchWithCache source now w
           = Returns (MinimumPrefetchInterval, Some e, s', w')
           /\ in_ s' = in_ source).
Proof.
  split; [|split; [|split; [|split]]].
  - intros pre u post b s Hpre Hu.
    apply fetchLoop_first_verified with (w0 := w); auto.
  - intros pre u e Hpre Hu.
    apply fetchLoop_all_fail with (w0 := w); auto.
  - intros m1 m2 m3 e1 e2 b1 b2 s2 b3 s3 H1 H2 H2s H2c H3.
    assert (Hf1 : mirror_fails source w m1 e1) by (left; eauto).
    assert (Hf2 : mirror_fails source w m2 e2) by (right; right; eauto 10).
    assert (Hpre : Forall (fun m => exists e, mirror_fails source w m e) [m1; m2])
      by (repeat constructor; eauto).
    change [m1; m2; m3] with ([m1; m2] ++ m3 :: [])%list.
    rewrite (fetchLoop_first_verified source w [m1; m2] [] m3 b3 s3 Hpre H3)
      by reflexivity.
    unfold requests. cbn [map concat]. rewrite H1, H2. reflexivity.
  - intros now e0 pre u post b s Hr Hu Hpre Hv.
    rewrite (fetchWithCache_miss source now w e0 Hr)
      by (rewrite Hu; destruct pre; discriminate).
    rewrite Hu.
    rewrite (fetchLoop_first_verified source w pre post u b s) by auto.
    simpl. do 2 eexists. split; [reflexivity |]. split; [reflexivity |].
    destruct (writeToCache_world (set_in source b) b s
                (with_fetched w (fetched w ++ concat (map (requests w) pre)
                                           ++ [u; sigURL u])))
      as (_ & -> & _).
    reflexivity.
  - intros now e0 pre u e Hr Hu Hpre Hf.
    rewrite (fetchWithCache_miss source now w e0 Hr)
      by (rewrite Hu; destruct pre; discriminate).
    rewrite Hu.
    destruct (fetchLoop_all_fail source w pre u e Hpre Hf w [] [] (Some e0) eq_refl)
      as (b' & s' & ->).
    simpl. do 2 eexists. split; reflexivity.
Qed.

(** C8.  [NewSource] always returns a source, and its [cacheTTL] is the
    larger of the [refreshDelay] it was given and twenty-four hours. *)
Theorem NewSource_cacheTTL_floor (name : string) (urls : list string)
    (minisignKeyStr cacheFile formatStr : string) (refreshDelay : Duration)
    (w : World) :
  exists source err w',
    NewSource name urls minisignKeyStr cacheFile formatStr refreshDelay w
    = Returns (source, err, w')
    /\ cacheTTL source = Z.max refreshDelay (24 * Hour)
    /\ 24 * Hour <= cacheTTL source.
Proof.
  destruct (NewSource_returns name urls minisignKeyStr cacheFile formatStr
              refreshDelay w) as (s & e & w' & H & Httl & _).
  exists s, e, w'. split; [exact H |]. split; [exact Httl |].
  rewrite Httl. apply Z.le_max_r.
Qed.

(** C9.  Every source that [NewSource] returns has [prefetchDelay] equal
    to twenty-four hours, whatever [refreshDelay] was; [fetchWithCache]
    keeps that field; and a call of [fetchWithCache] on such a source that
    returns without error after requests to the network returns the delay
    of twenty-four hours and sets [refresh] to [now] plus twenty-four
    hours. *)
Theorem NewSource_prefetchDelay_constant :
  (forall name urls minisignKeyStr cacheFile formatStr refreshDelay w,
      exists source err w',
        NewSource name urls minisignKeyStr cacheFile formatStr refreshDelay w
        = Returns (source, err, w')
        /\ prefetchDelay source = 24 * Hour)
  /\ (forall source now w d e s' w',
         prefetchDelay source = DefaultPrefetchDelay ->
         fetchWithCache source now w = Returns (d, e, s', w') ->
         prefetchDelay s' = DefaultPrefetchDelay
         /\ (e = None -> fetched w' <> fetched w ->
             d = 24 * Hour /\ refresh s' = Add now (24 * Hour))).
Proof.
  split.
  - intros name urls k cf f rd w.
    destruct (NewSource_returns name urls k cf f rd w)
      as (s & e & w' & H & _ & Hpd & _).
    eauto.
  - intros source now w d e s' w' Hpd H.
    apply fetchWithCache_inv in H.
    pose proof (withCache_source _ _ _ _ _ _ _ H) as (Hcfg & _).
    destruct Hcfg as (_ & _ & _ & _ & _ & _ & Hpd').
    split; [congruence |].
    intros -> Hfetched.
    inversion H; subst; try congruence.
    rewrite Hpd. simpl. split; reflexivity.
Qed.

(** C10.  When the cached pair verifies, the source has a URL, the age of
    the cache is below [cacheTTL] and [prefetchDelay - elapsed] (computed
    as the code computes it, on [Duration]) is positive, [fetchWithCache]
    returns that delay without error, makes no request, and sets
    [refresh] to [now] plus that delay.  The delay is whatever positive
    value the subtraction gives: for every positive [d] with
    [prefetchDelay - elapsed = d] the result is [d], also when [d] is
    below the minimum interval of ten minutes. *)
Theorem fresh_cache_schedule_unfloored (source : Source) (now : Time)
    (w : World) (bin : bytes) (mtime : Time) :
  cache_verified source w bin mtime ->
  urls source <> [] ->
  Sub now mtime < cacheTTL source ->
  (0 < dsub (prefetchDelay source) (Sub now mtime) ->
   exists s',
     fetchWithCache source now w
     = Returns (dsub (prefetchDelay source) (Sub now mtime), None, s', w)
     /\ refresh s' = Add now (dsub (prefetchDelay source) (Sub now mtime))
     /\ in_ s' = bin)
  /\ (forall d,
         0 < d <= maxDuration ->
         prefetchDelay source - Sub now mtime = d ->
         exists s',
           fetchWithCache source now w = Returns (d, None, s', w)
           /\ refresh s' = Add now d
           /\ Sub (refresh s') now = d).
Proof.
  intros Hv Hu Hlt.
  assert (Hmain : 0 < dsub (prefetchDelay source) (Sub now mtime) ->
                  exists s',
                    fetchWithCache source now w
                    = Returns (dsub (prefetchDelay source) (Sub now mtime), None, s', w)
                    /\ refresh s' = Add now (dsub (prefetchDelay source) (Sub now mtime))
                    /\ in_ s' = bin).
  { intros Hpos.
    rewrite (fetchWithCache_fresh source now w bin mtime Hv Hlt) by auto.
    rewrite deferred_refresh_urls by exact Hu.
    eexists. split; [reflexivity |]. split; reflexivity. }
  split; [exact Hmain |].
  intros d Hd Heq.
  assert (Hi : is_int64 d) by (unfold is_int64, minDuration, maxDuration in *; lia).
  assert (Hds : dsub (prefetchDelay source) (Sub now mtime) = d).
  { unfold dsub. rewrite Heq. apply wrap64_id, Hi. }
  rewrite Hds in Hmain. destruct Hmain as (s' & H1 & H2 & _); [lia |].
  exists s'. split; [exact H1 |]. split; [exact H2 |].
  rewrite H2. apply Sub_Add, Hi.
Qed.

Lemma WriteFile_denied (w : World) (path : string) (data : bytes) :
  path ∈ write_deny w ->
  WriteFile w path data
  = (Some (ErrExternal "write failed"), with_written w (written w ++ [path])).
Proof.
  intros H. unfold WriteFile. simpl.
  destruct (decide (path ∈ write_deny w)); [reflexivity | contradiction].
Qed.

Lemma WriteFile_done (w : World) (path : string) (data : bytes) :
  path ∉ write_deny w ->
  WriteFile w path data
  = (None, with_files (with_written w (written w ++ [path]))
                      (<[path := mkFile data (clock w)]> (files w))).
Proof.
  intros H. unfold WriteFile. simpl.
  destruct (decide (path ∈ write_deny w)); [contradiction | reflexivity].
Qed.


(** ** The parser *)

Lemma string_append_assoc (a b c : string) : (a ++ b) ++ c = a ++ b ++ c.
Proof.
  induction a as [|x a IH]; [reflexivity |].
  change (String x ((a ++ b) ++ c) = String x (a ++ b ++ c)).
  rewrite IH. reflexivity.
Qed.

Lemma len_pos_iff (s : string) : (0 <? len s) = true <-> s <> "".
Proof.
  unfold len. destruct s; simpl; split; intros H;
    first [reflexivity | congruence | discriminate].
Qed.

Lemma len_zero_iff (s : string) : (len s =? 0) = true <-> s = "".
Proof.
  unfold len. destruct s; simpl; split; intros H;
    first [reflexivity | congruence | discriminate].
Qed.

Lemma is_descriptor_nonempty (line : string) :
  is_descriptor line = true -> (0 <? len line) = true.
Proof.
  unfold is_descriptor, HasPrefix. destruct line; simpl; [discriminate | reflexivity].
Qed.

Lemma add_lines_nonempty (lines : list string) :
  forall d,
    d <> "" ->
    fold_left add_line lines d
    = match lines with
      | [] => d
      | _ :: _ => d ++ LF ++ Join lines LF
      end.
Proof.
  induction lines as [|x r IH]; intros d Hd; [reflexivity |].
  cbn [fold_left]. unfold add_line at 2.
  destruct (len_pos_iff d) as [_ Hpos]. rewrite (Hpos Hd).
  rewrite IH by (destruct d; [congruence | discriminate]).
  destruct r as [|y r]; cbn [Join]; rewrite !string_append_assoc; reflexivity.
Qed.

Lemma add_lines_empty (lines : list string) :
  Forall (fun l => l <> "") lines ->
  fold_left add_line lines "" = Join lines LF.
Proof.
  intros H. destruct H as [|x r Hx Hr]; [reflexivity |].
  cbn [fold_left]. unfold add_line at 2. simpl (0 <? len "").
  cbn iota. simpl ("" ++ x).
  rewrite add_lines_nonempty by exact Hx.
  destruct r; reflexivity.
Qed.

(** The loop over the lines of a section, in terms of the descriptor lines
    and the other lines of the section. *)
Lemma subpartsLoop_spec (subparts : list string) :
  forall stampStr description,
    subpartsLoop subparts stampStr description
    = let lines := map TrimSpaceFunc subparts in
      let text :=
        fold_left add_line
          (List.filter (fun l => negb (is_descriptor l) && negb (is_comment l)) lines)
          description in
      match List.filter is_descriptor lines with
      | [] => Some (stampStr, text)
      | [d] => if 0 <? len stampStr then None else Some (d, text)
      | _ :: _ :: _ => None
      end.
Proof.
  induction subparts as [|a rest IH]; intros st d; [reflexivity |].
  cbn [subpartsLoop map List.filter]. cbv zeta.
  fold (is_descriptor (TrimSpaceFunc a)).
  destruct (is_descriptor (TrimSpaceFunc a)) eqn:Hdesc.
  - cbn [negb andb].
    destruct (0 <? len st) eqn:Hst.
    + destruct (List.filter is_descriptor (map TrimSpaceFunc rest)); reflexivity.
    + rewrite IH. cbv zeta.
      rewrite (is_descriptor_nonempty _ Hdesc).
      destruct (List.filter is_descriptor (map TrimSpaceFunc rest)) as [|x [|y r]];
        reflexivity.
  - cbn [negb andb]. fold (is_comment (TrimSpaceFunc a)).
    destruct (is_comment (TrimSpaceFunc a)) eqn:Hcom.
    + cbn [negb]. rewrite IH. reflexivity.
    + cbn [negb fold_left]. rewrite IH. reflexivity.
Qed.

Lemma free_lines_nonempty (lines : list string) :
  Forall (fun l => l <> "")
         (List.filter (fun l => negb (is_descriptor l) && negb (is_comment l)) lines).
Proof.
  apply Forall_forall. intros l Hin.
  apply list_elem_of_In, filter_In in Hin as [_ H].
  apply andb_true_iff in H as [_ H].
  intros ->. discriminate.
Qed.

(** One section: the body of [PartsLoop] returns from [parseV2] when the
    section, once trimmed, lacks a name or a second line
    ([has_name_and_body] fails), and otherwise does what [entry_of]
    says. *)
Lemma parsePart_spec (prefix part : string) :
  (has_name_and_body part ->
   parsePart prefix part
   = match entry_of prefix part with
     | EntryError msg => PartStampErr msg
     | Entry rs => PartServer rs
     end)
  /\ (~ has_name_and_body part -> parsePart prefix part = PartReturn).
Proof.
  unfold has_name_and_body, parsePart, entry_of, descriptors, free_text,
    section_name, section_lines.
  set (subparts := Split (TrimSpaceFunc part) LF).
  set (name := TrimSpaceFunc (hd "" subparts)).
  cbv zeta.
  destruct (Z.ltb_spec (Z.of_nat (length subparts)) 2) as [Hlen|Hlen].
  { split; [intros [H _]; lia | reflexivity]. }
  destruct (len name =? 0) eqn:Hname.
  { apply len_zero_iff in Hname.
    split; [intros [_ H]; congruence | reflexivity]. }
  split; [|intros H; exfalso; apply H; split;
            [lia | intros E; rewrite E in Hname; discriminate]].
  intros _. rewrite subpartsLoop_spec. cbv zeta.
  rewrite add_lines_empty by apply free_lines_nonempty.
  destruct (List.filter is_descriptor (map TrimSpaceFunc (tl subparts)))
    as [|d [|d' r]]; [reflexivity | | reflexivity].
  change (0 <? len "") with false. cbv iota.
  destruct (len d <? 6); [reflexivity |].
  destruct (stamps_NewServerStampFromString d); reflexivity.
Qed.

Lemma entries_of_cons (prefix part : string) (rest : list string) :
  entries_of prefix (part :: rest)
  = match entry_of prefix part with
    | Entry rs => rs :: entries_of prefix rest
    | EntryError _ => entries_of prefix rest
    end.
Proof. unfold entries_of. simpl. destruct (entry_of prefix part); reflexivity. Qed.

Lemma entry_errors_of_cons (prefix part : string) (rest : list string) :
  entry_errors_of prefix (part :: rest)
  = match entry_of prefix part with
    | Entry _ => entry_errors_of prefix rest
    | EntryError msg => msg :: entry_errors_of prefix rest
    end.
Proof.
  unfold entry_errors_of. simpl. destruct (entry_of prefix part); reflexivity.
Qed.

Lemma partsLoop_entries (prefix : string) (parts : list string) :
  Forall has_name_and_body parts ->
  forall servers errs,
    partsLoop prefix parts servers errs
    = ((servers ++ entries_of prefix parts)%list,
       (errs ++ entry_errors_of prefix parts)%list, false).
Proof.
  intros H. induction H as [|part rest Hp _ IH]; intros servers errs.
  - simpl. rewrite !app_nil_r. reflexivity.
  - cbn [partsLoop].
    rewrite (proj1 (parsePart_spec prefix part) Hp).
    rewrite entries_of_cons, entry_errors_of_cons.
    destruct (entry_of prefix part); rewrite IH, <- app_assoc; reflexivity.
Qed.

Lemma partsLoop_format_error (prefix : string) (good : list string)
    (bad_part : string) (rest : list string) :
  Forall has_name_and_body good ->
  ~ has_name_and_body bad_part ->
  forall servers errs,
    partsLoop prefix (good ++ bad_part :: rest) servers errs
    = ((servers ++ entries_of prefix good)%list,
       (errs ++ entry_errors_of prefix good)%list, true).
Proof.
  intros H Hbad. induction H as [|part good' Hp _ IH]; intros servers errs.
  - cbn [app partsLoop].
    rewrite (proj2 (parsePart_spec prefix bad_part) Hbad).
    simpl. rewrite !app_nil_r. reflexivity.
  - cbn [app partsLoop].
    rewrite (proj1 (parsePart_spec prefix part) Hp).
    rewrite entries_of_cons, entry_errors_of_cons.
    destruct (entry_of prefix part); rewrite IH, <- app_assoc; reflexivity.
Qed.

Lemma Split_nonempty (s sep : string) : Split s sep <> [].
Proof.
  unfold Split. generalize (@nil ascii) as cur. generalize O as skip.
  induction s as [|c s IH]; intros skip cur; cbn [split_go]; [discriminate |].
  destruct skip; [|apply IH].
  destruct (String.prefix sep (String c s)); [discriminate | apply IH].
Qed.

(** C6, amended.  The lines of a section are counted after white space
    (line feeds included) has been trimmed from both ends of the section.
    When the text has a section marker and every section so trimmed has at
    least two lines, the first of them not empty ([has_name_and_body]),
    [parseV2] returns the entries of the sections that have exactly one
    descriptor line that decodes, in order, and every other section is an
    entry-level error (descriptor missing or shorter than six bytes,
    descriptor that does not decode, second descriptor line) that is
    collected while parsing goes on; the error returned is the join of
    the collected ones, or nil when there is none.  A section that, so
    trimmed, is a single line (a name followed by nothing or by blank
    lines only) or has an empty first line is not an entry-level error:
    [parseV2] returns at that section with the format error, together with
    the entries made before it.  A text without a marker is the format
    error with no entry.  The text of sections [A] (descriptor
    ["sdns://bad"], which does not decode) and [B] (a descriptor that
    decodes) gives the single entry [B] and the single collected error,
    that of [A].  The text of [A] followed by a blank line only and of a
    valid [B] is the format error with no entry.  A marker followed by a
    line feed, then [foo], then a descriptor that decodes, gives the entry
    [foo]: the blank first line is trimmed away. *)
Theorem parseV2_entry_errors (source : Source) (prefix : string) :
  (sections source <> [] ->
   Forall has_name_and_body (sections source) ->
   parseV2 source prefix
   = (entries_of prefix (sections source),
      match entry_errors_of prefix (sections source) with
      | [] => None
      | _ :: _ =>
          Some (ErrStamps (Join (entry_errors_of prefix (sections source)) ", "))
      end))
  /\ (forall good bad_part rest,
         sections source = (good ++ bad_part :: rest)%list ->
         Forall has_name_and_body good ->
         ~ has_name_and_body bad_part ->
         parseV2 source prefix
         = (entries_of prefix good, Some (ErrInvalidFormat (urls source))))
  /\ (sections source = [] ->
      parseV2 source prefix = ([], Some (ErrInvalidFormat (urls source))))
  /\ (forall e stamp,
         in_ source = bytes_of_string (two_sections sample_stamp) ->
         stamps_NewServerStampFromString "sdns://bad" = inl e ->
         stamps_NewServerStampFromString sample_stamp = inr stamp ->
         parseV2 source prefix
         = ([mkRegisteredServer (prefix ++ "B") stamp ""],
            Some (ErrStamps ("Invalid or unsupported stamp [sdns://bad]: "
                             ++ Error e)))
         /\ entry_errors_of prefix (sections source)
            = ["Invalid or unsupported stamp [sdns://bad]: " ++ Error e])
  /\ (in_ source = bytes_of_string (blank_body_sections sample_stamp) ->
      sections source = ["A" ++ LF ++ LF; "B" ++ LF ++ sample_stamp ++ LF]
      /\ ~ has_name_and_body ("A" ++ LF ++ LF)
      /\ parseV2 source prefix = ([], Some (ErrInvalidFormat (urls source))))
  /\ (forall stamp,
         in_ source = bytes_of_string (blank_name_section sample_stamp) ->
         stamps_NewServerStampFromString sample_stamp = inr stamp ->
         sections source = [LF ++ "foo" ++ LF ++ sample_stamp ++ LF]
         /\ parseV2 source prefix
            = ([mkRegisteredServer (prefix ++ "foo") stamp ""], None)).
Proof.
  assert (Hlen : forall l : list string,
             l <> [] -> (Z.of_nat (length l) <? 2) = true <-> tl l = []).
  { intros [|a [|b l]] H.
    - congruence.
    - split; intros _; reflexivity.
    - split; intros H'; [|discriminate].
      apply Z.ltb_lt in H'. cbn [length] in H'. lia. }
  assert (Hmain : sections source <> [] ->
                  Forall has_name_and_body (sections source) ->
                  parseV2 source prefix
                  = (entries_of prefix (sections source),
                     match entry_errors_of prefix (sections source) with
                     | [] => None
                     | _ :: _ =>
                         Some (ErrStamps
                                 (Join (entry_errors_of prefix (sections source)) ", "))
                     end)).
  { intros Hne Hall. unfold parseV2. fold (sections source).
    destruct (Z.of_nat (length (Split (string_of_bytes (in_ source)) "## ")) <? 2)
      eqn:Hl.
    { apply Hlen in Hl; [|apply Split_nonempty]. contradiction. }
    rewrite (partsLoop_entries prefix (sections source) Hall). simpl.
    destruct (entry_errors_of prefix (sections source)); reflexivity. }
  assert (Hfmt : forall good bad_part rest,
             sections source = (good ++ bad_part :: rest)%list ->
             Forall has_name_and_body good ->
             ~ has_name_and_body bad_part ->
             parseV2 source prefix
             = (entries_of prefix good, Some (ErrInvalidFormat (urls source)))).
  { intros good bad_part rest Hs Hgood Hbad. unfold parseV2.
    fold (sections source).
    destruct (Z.of_nat (length (Split (string_of_bytes (in_ source)) "## ")) <? 2)
      eqn:Hl.
    { apply Hlen in Hl; [|apply Split_nonempty].
      unfold sections in Hs. rewrite Hl in Hs. destruct good; discriminate. }
    rewrite Hs, (partsLoop_format_error prefix good bad_part rest Hgood Hbad).
    reflexivity. }
  split; [exact Hmain |]. split; [exact Hfmt |]. split; [|split; [|split]].
  - intros Hs. unfold parseV2.
    destruct (Z.of_nat (length (Split (string_of_bytes (in_ source)) "## ")) <? 2)
      eqn:Hl; [reflexivity |].
    exfalso. apply Bool.not_true_iff_false in Hl. apply Hl.
    apply Hlen; [apply Split_nonempty | exact Hs].
  - intros e stamp Hin He Hst.
    set (secA := "A" ++ LF ++ "sdns://bad" ++ LF).
    set (secB := "B" ++ LF ++ sample_stamp ++ LF).
    assert (Hs : sections source = [secA; secB]).
    { unfold sections. rewrite Hin. vm_compute. reflexivity. }
    assert (HA : entry_of prefix secA
                 = EntryError ("Invalid or unsupported stamp [sdns://bad]: "
                               ++ Error e)).
    { unfold entry_of.
      replace (descriptors secA) with ["sdns://bad"] by (vm_compute; reflexivity).
      change (len "sdns://bad" <? 6) with false. cbv iota.
      rewrite He. reflexivity. }
    assert (HB : entry_of prefix secB
                 = Entry (mkRegisteredServer (prefix ++ "B") stamp "")).
    { unfold entry_of.
      replace (descriptors secB) with [sample_stamp] by (vm_compute; reflexivity).
      replace (len sample_stamp <? 6) with false by (vm_compute; reflexivity).
      cbv iota. rewrite Hst.
      replace (section_name secB) with "B" by (vm_compute; reflexivity).
      replace (free_text secB) with "" by (vm_compute; reflexivity).
      reflexivity. }
    assert (Herrs : entry_errors_of prefix [secA; secB]
                    = ["Invalid or unsupported stamp [sdns://bad]: " ++ Error e]).
    { rewrite !entry_errors_of_cons, HA, HB. reflexivity. }
    rewrite Hmain.
    + rewrite Hs, Herrs. split; [|reflexivity].
      rewrite !entries_of_cons, HA, HB. reflexivity.
    + rewrite Hs. discriminate.
    + rewrite Hs. repeat constructor; vm_compute; first [lia | discriminate].
  - intros Hin.
    assert (Hs : sections source
                 = ["A" ++ LF ++ LF; "B" ++ LF ++ sample_stamp ++ LF]).
    { unfold sections. rewrite Hin. vm_compute. reflexivity. }
    assert (Hbad : ~ has_name_and_body ("A" ++ LF ++ LF)).
    { intros [Hl _]. vm_compute in Hl. lia. }
    split; [exact Hs |]. split; [exact Hbad |].
    apply (Hfmt [] ("A" ++ LF ++ LF) ["B" ++ LF ++ sample_stamp ++ LF]);
      [exact Hs | constructor | exact Hbad].
  - intros stamp Hin Hst.
    set (sec := LF ++ "foo" ++ LF ++ sample_stamp ++ LF).
    assert (Hs : sections source = [sec]).
    { unfold sections. rewrite Hin. vm_compute. reflexivity. }
    split; [exact Hs |].
    assert (Hsec : entry_of prefix sec
                   = Entry (mkRegisteredServer (prefix ++ "foo") stamp "")).
    { unfold entry_of.
      replace (descriptors sec) with [sample_stamp] by (vm_compute; reflexivity).
      replace (len sample_stamp <? 6) with false by (vm_compute; reflexivity).
      cbv iota. rewrite Hst.
      replace (section_name sec) with "foo" by (vm_compute; reflexivity).
      replace (free_text sec) with "" by (vm_compute; reflexivity).
      reflexivity. }
    rewrite Hmain.
    + rewrite Hs, !entries_of_cons, !entry_errors_of_cons, Hsec. reflexivity.
    + rewrite Hs. discriminate.
    + rewrite Hs. repeat constructor; vm_compute; first [lia | discriminate].
Qed.

(** ** The sweep *)

(** The interval that the loop of [PrefetchSources] carries never drops
    below the one it starts from. *)
Lemma prefetchLoop_floor (now : Time) (sources : list nat) :
  forall interval heap w interval' heap' w',
    MinimumPrefetchInterval <= interval ->
    prefetchLoop now sources interval heap w = Returns (interval', heap', w') ->
    MinimumPrefetchInterval <= interval'.
Proof.
  induction sources as [|p rest IH]; intros interval heap w interval' heap' w' Hi H.
  - simpl in H. injection H as <- <- <-. exact Hi.
  - cbn [prefetchLoop] in H. destruct (heap !! p) as [source|]; [|discriminate].
    destruct (IsZero (refresh source) || After (refresh source) now);
      [eapply IH; [exact Hi | exact H] |].
    apply bind_Returns in H as ([[[d e] s'] w1] & _ & H). cbv beta iota in H.
    destruct e; [eapply IH; [exact Hi | exact H] |].
    destruct (Z.leb_spec MinimumPrefetchInterval d) as [Hd|Hd]; cbn [andb] in H;
      [|eapply IH; [exact Hi | exact H]].
    destruct ((interval =? MinimumPrefetchInterval) || (d <? interval));
      [eapply IH; [exact Hd | exact H] | eapply IH; [exact Hi | exact H]].
Qed.

Lemma PrefetchSources_floor (sources : list nat) (heap : gmap nat Source)
    (w : World) (interval : Duration) (heap' : gmap nat Source) (w' : World) :
  PrefetchSources sources heap w = Returns (interval, heap', w') ->
  MinimumPrefetchInterval <= interval.
Proof. apply prefetchLoop_floor. lia. Qed.

End SourcesFacts.

(** * Further facts about the package *)

Section MoreFacts.

Context `{Ext : Externals}.

(** ** [parseURLs] and [fetchFromURL] *)

Lemma parseURLs_loop_app (l : list string) :
  forall acc, parseURLs_loop acc l = (acc ++ parsed_urls l)%list.
Proof.
  induction l as [|urlStr rest IH]; intros acc.
  - simpl. rewrite app_nil_r. reflexivity.
  - cbn [parseURLs_loop]. unfold parsed_urls. cbn [omap list_omap].
    fold (parsed_urls rest).
    destruct (url_Parse urlStr) as [e|srcURL].
    + rewrite IH. reflexivity.
    + rewrite IH, <- app_assoc. reflexivity.
Qed.

Lemma parsed_urls_length (l : list string) :
  (length (parsed_urls l) <= length l)%nat.
Proof.
  induction l as [|x r IH]; [reflexivity |].
  unfold parsed_urls. cbn [omap list_omap]. fold (parsed_urls r).
  destruct (url_Parse x); simpl; lia.
Qed.

(** X1.  [parseURLs] appends to the URLs the source already has the
    strings that [url.Parse] accepts, in the order given; the strings it
    rejects are dropped without an error, and no other field of the source
    changes: the result is the source with that list of URLs. *)
Theorem parseURLs_appends_parsed (source : Source) (l : list string) :
  urls (parseURLs source l) = (urls source ++ parsed_urls l)%list
  /\ (length (urls (parseURLs source l))
      <= length (urls source) + length l)%nat
  /\ (Forall (fun urlStr => exists e, url_Parse urlStr = inl e) l ->
      parseURLs source l = source)
  /\ in_ (parseURLs source l) = in_ source
  /\ refresh (parseURLs source l) = refresh source
  /\ minisignKey (parseURLs source l) = minisignKey source
  /\ cacheFile (parseURLs source l) = cacheFile source
  /\ name (parseURLs source l) = name source
  /\ format (parseURLs source l) = format source
  /\ cacheTTL (parseURLs source l) = cacheTTL source
  /\ prefetchDelay (parseURLs source l) = prefetchDelay source
  /\ parseURLs source l
     = mkSource (name source) (urls source ++ parsed_urls l) (format source)
                (in_ source) (minisignKey source) (cacheFile source)
                (cacheTTL source) (prefetchDelay source) (refresh source).
Proof.
  assert (Hu : urls (parseURLs source l) = (urls source ++ parsed_urls l)%list).
  { unfold parseURLs. simpl. apply parseURLs_loop_app. }
  split; [exact Hu |]. split; [|split; [|repeat split]].
  - rewrite Hu, length_app. apply Nat.add_le_mono_l, parsed_urls_length.
  - intros Hall. clear Hu. unfold parseURLs. rewrite parseURLs_loop_app.
    replace (parsed_urls l) with (@nil URL).
    + rewrite app_nil_r. destruct source; reflexivity.
    + induction Hall as [|x r [e Hx] _ IH]; [reflexivity |].
      unfold parsed_urls. cbn [omap list_omap]. rewrite Hx. exact IH.
  - unfold parseURLs, set_urls. rewrite parseURLs_loop_app. reflexivity.
Qed.

(** X2.  What [fetchFromURL] returns is never longer than
    [MaxHTTPBodyLength]: it is the body when the body is shorter than the
    cap (with the error of the stream, if any), and the first
    [MaxHTTPBodyLength] bytes of it, without an error, otherwise.  A [Get]
    that fails gives no bytes and its error.  Each call adds exactly its
    URL to the requests and changes nothing else of the world. *)
Theorem fetchFromURL_capped (w : World) (u : URL) :
  Z.of_nat (length (fst (fst (fetchFromURL w u)))) <= Z.max 0 MaxHTTPBodyLength
  /\ (forall data e,
         net w u = GetBody data e ->
         (Z.of_nat (length data) < MaxHTTPBodyLength ->
          fst (fetchFromURL w u) = (data, e))
         /\ (MaxHTTPBodyLength <= Z.of_nat (length data) ->
             fst (fetchFromURL w u)
             = (take (Z.to_nat MaxHTTPBodyLength) data, None)))
  /\ (forall e, net w u = GetFails e -> fst (fetchFromURL w u) = ([], Some e))
  /\ snd (fetchFromURL w u) = with_fetched w (fetched w ++ [u]).
Proof.
  unfold fetchFromURL, download. cbn [fst snd].
  split; [|split; [|split; [|reflexivity]]].
  - destruct (net w u) as [e|data e]; [simpl; lia |].
    unfold readLimited.
    destruct (Z.ltb_spec (Z.of_nat (length data)) MaxHTTPBodyLength);
      cbn [fst]; [lia |].
    rewrite length_take. lia.
  - intros data e ->. unfold readLimited.
    destruct (Z.ltb_spec (Z.of_nat (length data)) MaxHTTPBodyLength);
      split; intros; first [reflexivity | lia].
  - intros e ->. reflexivity.
Qed.

(** ** [NewSource] and [Parse] *)

(** X3.  [NewSource] checks the format before the key and both before
    anything else: with a format other than ["v2"] it returns the
    unsupported-format error (also when the key is bad as well), with
    format ["v2"] and a key that does not parse it returns the error of
    the key; in both cases the source it returns has no key, no URL, no
    content and the zero [refresh], no file was read or written and no
    request was made. *)
Theorem NewSource_rejects_before_io (name : string) (urlStrs : list string)
    (minisignKeyStr cacheFile formatStr : string) (refreshDelay : Duration)
    (w : World) :
  (formatStr <> "v2" ->
   exists source,
     NewSource name urlStrs minisignKeyStr cacheFile formatStr refreshDelay w
     = Returns (source, Some (ErrUnsupportedFormat formatStr), w)
     /\ minisignKey source = None /\ urls source = []
     /\ in_ source = [] /\ refresh source = 0)
  /\ (forall e,
         formatStr = "v2" ->
         minisign_NewPublicKey minisignKeyStr = inl e ->
         exists source,
           NewSource name urlStrs minisignKeyStr cacheFile formatStr refreshDelay w
           = Returns (source, Some e, w)
           /\ minisignKey source = None /\ urls source = []
           /\ in_ source = [] /\ refresh source = 0).
Proof.
  unfold NewSource. split.
  - intros Hf. apply String.eqb_neq in Hf. rewrite Hf.
    eexists. split; [reflexivity |]. repeat split.
  - intros e -> He. rewrite String.eqb_refl, He.
    eexists. split; [reflexivity |]. repeat split.
Qed.

(** ** More on [fetchWithCache] *)

Lemma mirror_fails_config (s1 s2 : Source) (w1 w2 : World) (u : URL)
    (e : error) :
  minisignKey s1 = minisignKey s2 -> net w1 = net w2 ->
  mirror_fails s1 w1 u e -> mirror_fails s2 w2 u e.
Proof.
  intros Hk Hn H. unfold mirror_fails in *.
  rewrite <- (download_net w1 w2 u Hn), <- (download_net w1 w2 (sigURL u) Hn).
  destruct H as [H | [H | (b & s & H1 & H2 & H3)]]; [auto | auto |].
  right. right. exists b, s. repeat split; [exact H1 | exact H2 |].
  rewrite <- (checkSignature_key_eq s1 s2 b s Hk). exact H3.
Qed.

(** The requests of a returning loop: at most two for each URL, each to a
    URL of the list or to the URL of its signature. *)
Lemma fetchLoop_requests (source : Source) (l : list URL) :
  forall (bin sig : bytes) (err : option error) (w : World)
         (bin' sig' : bytes) (err' : option error) (w' : World),
    fetchLoop source l bin sig err w = Returns (bin', sig', err', w') ->
    exists reqs,
      w' = with_fetched w (fetched w ++ reqs)
      /\ Forall (fun r => exists u, u ∈ l /\ (r = u \/ r = sigURL u)) reqs
      /\ (length reqs <= 2 * length l)%nat.
Proof.
  induction l as [|u rest IH]; intros bin sig err w bin' sig' err' w' H.
  - simpl in H. injection H as <- <- <- <-. exists [].
    rewrite app_nil_r, with_fetched_id.
    split; [reflexivity |]. split; [constructor | simpl; lia].
  - assert (Hgo : forall b0 s0 e0 reqs0,
               Forall (fun r => r = u \/ r = sigURL u) reqs0 ->
               (length reqs0 <= 2)%nat ->
               fetchLoop source rest b0 s0 e0
                         (with_fetched w (fetched w ++ reqs0))
               = Returns (bin', sig', err', w') ->
               exists reqs,
                 w' = with_fetched w (fetched w ++ reqs)
                 /\ Forall (fun r => exists m, m ∈ u :: rest
                                               /\ (r = m \/ r = sigURL m)) reqs
                 /\ (length reqs <= 2 * length (u :: rest))%nat).
    { intros b0 s0 e0 reqs0 H0 Hl0 Hrec.
      apply IH in Hrec as (reqs & -> & Hall & Hlen).
      exists (reqs0 ++ reqs)%list. simpl. rewrite app_assoc.
      split; [reflexivity |]. split.
      - apply Forall_app. split.
        + eapply Forall_impl; [exact H0 |]. intros r Hr. exists u.
          split; [left | exact Hr].
        + eapply Forall_impl; [exact Hall |]. intros r (m & Hm & Hr).
          exists m. split; [right; exact Hm | exact Hr].
      - rewrite length_app. simpl in *. lia. }
    assert (H1r : Forall (fun r => r = u \/ r = sigURL u) [u])
      by (constructor; [left; reflexivity | constructor]).
    assert (H2r : Forall (fun r => r = u \/ r = sigURL u) [u; sigURL u])
      by (constructor; [left; reflexivity |];
          constructor; [right; reflexivity | constructor]).
    cbn [fetchLoop] in H. unfold fetchFromURL in H.
    destruct (download w u) as [b [e1|]].
    { apply (Hgo b sig (Some e1) [u]); [exact H1r | simpl; lia | exact H]. }
    destruct (download (with_fetched w (fetched w ++ [u])) (sigURL u)) as [s [e2|]].
    { cbn [fetched with_fetched] in H. rewrite <- app_assoc in H.
      apply (Hgo b s (Some e2) [u; sigURL u]);
        [exact H2r | simpl; lia | exact H]. }
    apply bind_Returns in H as (r & _ & H). destruct r as [e3|].
    { cbn [fetched with_fetched] in H. rewrite <- app_assoc in H.
      apply (Hgo b s (Some e3) [u; sigURL u]);
        [exact H2r | simpl; lia | exact H]. }
    injection H as <- <- <- <-.
    exists [u; sigURL u]. cbn [fetched with_fetched]. rewrite <- app_assoc.
    split; [reflexivity |]. split; [|simpl; lia].
    eapply Forall_impl; [exact H2r |]. intros r Hr. exists u.
    split; [left | exact Hr].
Qed.

(** [writeToCache] changes no file but its two, and denies stay as they
    are. *)
Lemma writeToCache_frame (source : Source) (bin sig : bytes) (w : World) :
  let w' := snd (writeToCache source bin sig w) in
  (forall p, p <> cacheFile source -> p <> sigFile (cacheFile source) ->
             files w' !! p = files w !! p)
  /\ write_deny w' = write_deny w /\ stat_deny w' = stat_deny w
  /\ (forall p, p ∈ written w' ->
                p ∈ written w \/ p = cacheFile source
                \/ p = sigFile (cacheFile source)).
Proof.
  unfold writeToCache.
  set (f := cacheFile source).
  destruct (decide (f ∈ write_deny w)) as [Hd|Hd].
  { rewrite (WriteFile_denied w f bin Hd). simpl.
    repeat split; auto.
    intros p Hp. apply elem_of_app in Hp as [Hp|Hp]; [auto |].
    apply list_elem_of_singleton in Hp. auto. }
  rewrite (WriteFile_done w f bin Hd).
  set (w1 := with_files (with_written w (written w ++ [f]))
                        (<[f := mkFile bin (clock w)]> (files w))).
  destruct (decide (sigFile f ∈ write_deny w)) as [Hs|Hs].
  - rewrite (WriteFile_denied w1 (sigFile f) sig Hs). simpl.
    repeat split; auto.
    + intros p H1 H2. apply lookup_insert_ne. congruence.
    + intros p Hp. apply elem_of_app in Hp as [Hp|Hp].
      * apply elem_of_app in Hp as [Hp|Hp]; [auto |].
        apply list_elem_of_singleton in Hp. auto.
      * apply list_elem_of_singleton in Hp. auto.
  - rewrite (WriteFile_done w1 (sigFile f) sig Hs). simpl.
    repeat split; auto.
    + intros p H1 H2. rewrite !lookup_insert_ne by congruence. reflexivity.
    + intros p Hp. apply elem_of_app in Hp as [Hp|Hp].
      * apply elem_of_app in Hp as [Hp|Hp]; [auto |].
        apply list_elem_of_singleton in Hp. auto.
      * apply list_elem_of_singleton in Hp. auto.
Qed.

(** X4.  A source without a URL lives on its cache alone: a returning
    call of [fetchWithCache] makes no request, writes nothing and leaves
    [refresh] as it was; it returns without error exactly when it adopted
    a cached pair that verifies, and with an error its delay is zero. *)
Theorem cache_only_source_left_alone (source : Source) (now : Time)
    (w : World) (d : Duration) (e : option error) (s' : Source) (w' : World) :
  urls source = [] ->
  fetchWithCache source now w = Returns (d, e, s', w') ->
  w' = w
  /\ refresh s' = refresh source
  /\ (e = None ->
      exists bin mtime, cache_verified source w bin mtime /\ in_ s' = bin)
  /\ (is_Some e -> d = 0).
Proof.
  intros Hu H. apply fetchWithCache_inv in H.
  inversion H as [d0 e0 s1 Hc _| | |]; subst; try congruence.
  split; [reflexivity |].
  destruct (fromCache_source _ _ _ _ _ _ Hc) as (_ & Hr & _ & Hd).
  split; [exact Hr |]. split; [|exact Hd].
  intros ->. inversion Hc; subst; eauto.
Qed.

(** X5.  For a source with a URL every returning call of [fetchWithCache]
    sets [refresh] to [now] plus the delay it returns, and that delay is
    the minimum interval when an error is returned, and otherwise either
    [prefetchDelay] or the positive remainder [prefetchDelay - elapsed] of
    a cached pair that verifies. *)
Theorem refresh_follows_delay (source : Source) (now : Time) (w : World)
    (d : Duration) (e : option error) (s' : Source) (w' : World) :
  urls source <> [] ->
  fetchWithCache source now w = Returns (d, e, s', w') ->
  refresh s' = Add now d
  /\ (is_Some e -> d = MinimumPrefetchInterval)
  /\ (e = None ->
      d = prefetchDelay source
      \/ (0 < d
          /\ exists bin mtime,
               cache_verified source w bin mtime
               /\ Sub now mtime < cacheTTL source
               /\ d = dsub (prefetchDelay source) (Sub now mtime))).
Proof.
  intros Hu H. apply fetchWithCache_inv in H.
  inversion H as [|d0 s1 Hc _ Hpos|d0 e0 s1 b sg e1 w1 Hc _ _ _
                  |d0 e0 s1 b sg w1 Hc _ _ _]; subst; try congruence.
  - split; [reflexivity |]. split; [intros [? [=]] |].
    intros _. right. split; [exact Hpos |].
    inversion Hc; subst; [eauto | lia].
  - split; [reflexivity |]. split; [reflexivity | discriminate].
  - split; [reflexivity |]. split; [intros [? [=]] | auto].
Qed.

(** X6.  The requests of a returning call of [fetchWithCache] are added
    after those made before; each goes to a URL of the source or to the
    URL of its signature, there are at most two for each URL, and a call
    that makes no request leaves the whole world as it was.  The network
    and the clock are never changed. *)
Theorem requests_only_to_mirrors (source : Source) (now : Time) (w : World)
    (d : Duration) (e : option error) (s' : Source) (w' : World) :
  fetchWithCache source now w = Returns (d, e, s', w') ->
  exists reqs,
    fetched w' = (fetched w ++ reqs)%list
    /\ Forall (mirror_request source) reqs
    /\ (length reqs <= 2 * length (urls source))%nat
    /\ (reqs = [] -> w' = w)
    /\ net w' = net w /\ clock w' = clock w.
Proof.
  intros H. apply fetchWithCache_inv in H.
  assert (Hloop : forall s1 e0 b sg e1 w1,
             urls s1 = urls source ->
             urls source <> [] ->
             fetchLoop s1 (urls s1) [] [] e0 w = Returns (b, sg, e1, w1) ->
             exists reqs,
               w1 = with_fetched w (fetched w ++ reqs)
               /\ Forall (mirror_request source) reqs
               /\ (length reqs <= 2 * length (urls source))%nat
               /\ reqs <> []).
  { intros s1 e0 b sg e1 w1 Hs1 Hne Hl.
    destruct (fetchLoop_requests _ _ _ _ _ _ _ _ _ _ Hl) as (reqs & Hw & Hall & Hlen).
    apply fetchLoop_inv in Hl as [(reqs' & Hw' & Hne') _].
    exists reqs. split; [exact Hw |]. rewrite Hs1 in *.
    split; [exact Hall |]. split; [exact Hlen |].
    assert (Heq : reqs = reqs').
    { rewrite Hw in Hw'. apply (f_equal fetched) in Hw'. simpl in Hw'.
      apply app_inv_head in Hw'. exact Hw'. }
    rewrite Heq. apply Hne'. exact Hne. }
  inversion H as [d0 e0 s1 Hc Hu|d0 s1 Hc Hu Hpos|d0 e0 s1 b sg e1 w1 Hc Hu Hd Hl
                  |d0 e0 s1 b sg w1 Hc Hu Hd Hl]; subst.
  - exists []. rewrite app_nil_r. repeat split; auto. simpl. lia.
  - exists []. rewrite app_nil_r. repeat split; auto. simpl. lia.
  - destruct (fromCache_source _ _ _ _ _ _ Hc) as ((_ & Hurls & _) & _).
    destruct (Hloop _ _ _ _ _ _ Hurls Hu Hl) as (reqs & -> & Hall & Hlen & Hne).
    exists reqs. repeat split; auto. intros ->. congruence.
  - destruct (fromCache_source _ _ _ _ _ _ Hc) as ((_ & Hurls & _) & _).
    destruct (Hloop _ _ _ _ _ _ Hurls Hu Hl) as (reqs & -> & Hall & Hlen & Hne).
    destruct (writeToCache_world (set_in s1 b) b sg
                (with_fetched w (fetched w ++ reqs))) as (Hn & Hf & Hck).
    exists reqs. rewrite Hf, Hn, Hck. repeat split; auto. intros ->. congruence.
Qed.

(** X7.  A returning call of [fetchWithCache] changes no file other than
    the cache file of the source and its signature file, calls
    [WriteFile] on no other path, and writes nothing at all when it
    returns an error. *)
Theorem only_own_cache_files_written (source : Source) (now : Time)
    (w : World) (d : Duration) (e : option error) (s' : Source) (w' : World) :
  fetchWithCache source now w = Returns (d, e, s', w') ->
  (forall p, p <> cacheFile source -> p <> sigFile (cacheFile source) ->
             files w' !! p = files w !! p)
  /\ (forall p, p ∈ written w' ->
                p ∈ written w \/ p = cacheFile source
                \/ p = sigFile (cacheFile source))
  /\ (is_Some e -> files w' = files w /\ written w' = written w).
Proof.
  intros H. apply fetchWithCache_inv in H.
  inversion H as [d0 e0 s1 Hc Hu|d0 s1 Hc Hu Hpos|d0 e0 s1 b sg e1 w1 Hc Hu Hd Hl
                  |d0 e0 s1 b sg w1 Hc Hu Hd Hl]; subst.
  - repeat split; auto.
  - repeat split; auto.
  - apply fetchLoop_inv in Hl as [(reqs & -> & _) _]. repeat split; auto.
  - apply fetchLoop_inv in Hl as [(reqs & -> & _) _].
    destruct (fromCache_source _ _ _ _ _ _ Hc) as ((_ & _ & _ & _ & Hcf & _) & _).
    destruct (writeToCache_frame (set_in s1 b) b sg
                (with_fetched w (fetched w ++ reqs))) as (Hfiles & _ & _ & Hwr).
    simpl in Hfiles, Hwr. rewrite Hcf in Hfiles, Hwr.
    split; [exact Hfiles |]. split; [exact Hwr |]. intros [? [=]].
Qed.

(** A cached pair that verifies and yields no positive delay, with at
    least one URL: the call adopts the blob and runs the mirror loop. *)
Lemma fetchWithCache_stale (source : Source) (now : Time) (w : World)
    (bin : bytes) (mtime : Time) :
  cache_verified source w bin mtime ->
  urls source <> [] ->
  cacheTTL source <= Sub now mtime
  \/ dsub (prefetchDelay source) (Sub now mtime) <= 0 ->
  fetchWithCache source now w =
  '(b, sg, err, w1) ← fetchLoop (set_in source bin) (urls source) [] [] None w;
  match err with
  | Some _ =>
      Returns (MinimumPrefetchInterval, err,
               set_refresh (set_in source bin) (Add now MinimumPrefetchInterval),
               w1)
  | None =>
      Returns (prefetchDelay source, None,
               set_refresh (set_in source b) (Add now (prefetchDelay source)),
               snd (writeToCache (set_in source b) b sg w1))
  end.
Proof.
  intros Hv Hne Hstale. unfold fetchWithCache.
  rewrite (fetchFromCache_verified source now w bin mtime Hv).
  assert (Hd : exists d0, d0 <= 0
                          /\ (if Sub now mtime <? cacheTTL source
                              then (dsub (prefetchDelay source) (Sub now mtime),
                                    @None error, set_in source bin)
                              else (0, None, set_in source bin))
                             = (d0, None, set_in source bin)).
  { destruct (Z.ltb_spec (Sub now mtime) (cacheTTL source)).
    - eexists. split; [|reflexivity]. destruct Hstale; lia.
    - exists 0. split; [lia | reflexivity]. }
  destruct Hd as (d0 & Hd0 & ->).
  cbn [mbind outcome_bind]. cbv beta iota.
  change (urls (set_in source bin)) with (urls source).
  assert (Hlen : (Z.of_nat (length (urls source)) =? 0) = false).
  { apply Z.eqb_neq. destruct (urls source); [congruence | simpl; lia]. }
  rewrite Hlen, andb_false_r. cbn [orb].
  destruct (Z.ltb_spec 0 d0); [lia |].
  destruct (fetchLoop (set_in source bin) (urls source) [] [] None w)
    as [[[[b sg] err] w1]|]; cbn [mbind outcome_bind]; [|reflexivity].
  cbv beta iota. destruct err.
  - rewrite deferred_refresh_urls by exact Hne. reflexivity.
  - destruct (writeToCache _ _ _ _) as [r w2]. cbn [snd].
    rewrite deferred_refresh_urls by exact Hne. reflexivity.
Qed.

(** X8.  A cached pair that verifies but is stale (its age has reached
    [cacheTTL], or [prefetchDelay - elapsed] is not positive) stays in use
    when every mirror fails: [fetchWithCache] returns the error of the last
    mirror and the minimum interval, the content is the cached blob, the
    next refresh is ten minutes away, and nothing is written. *)
Theorem stale_cache_survives_failed_mirrors (source : Source) (now : Time)
    (w : World) (bin : bytes) (mtime : Time) (pre : list URL) (u : URL)
    (e : error) :
  cache_verified source w bin mtime ->
  urls source = (pre ++ [u])%list ->
  cacheTTL source <= Sub now mtime
  \/ dsub (prefetchDelay source) (Sub now mtime) <= 0 ->
  Forall (fun m => exists e', mirror_fails source w m e') pre ->
  mirror_fails source w u e ->
  exists s' w',
    fetchWithCache source now w
    = Returns (MinimumPrefetchInterval, Some e, s', w')
    /\ in_ s' = bin
    /\ refresh s' = Add now MinimumPrefetchInterval
    /\ files w' = files w /\ written w' = written w.
Proof.
  intros Hv Hu Hstale Hpre Hlast.
  assert (Hne : urls source <> []) by (rewrite Hu; destruct pre; discriminate).
  set (s1 := set_in source bin).
  assert (Hpre1 : Forall (fun m => exists e', mirror_fails s1 w m e') pre).
  { eapply Forall_impl; [exact Hpre |]. intros m [e' Hm]. exists e'.
    eapply mirror_fails_config; [| |exact Hm]; reflexivity. }
  assert (Hlast1 : mirror_fails s1 w u e).
  { eapply mirror_fails_config; [| |exact Hlast]; reflexivity. }
  rewrite (fetchWithCache_stale source now w bin mtime Hv Hne Hstale).
  fold s1. rewrite Hu.
  destruct (fetchLoop_all_fail s1 w pre u e Hpre1 Hlast1 w [] [] None eq_refl)
    as (b' & sg' & ->).
  simpl. do 2 eexists. split; [reflexivity |]. repeat split.
Qed.

(** The disk after a store in which both writes go through. *)
Lemma writeToCache_world_files (source : Source) (bin sig : bytes) (w : World) :
  cacheFile source ∉ write_deny w ->
  sigFile (cacheFile source) ∉ write_deny w ->
  exists w',
    writeToCache source bin sig w = (None, w')
    /\ cached_pair w' (cacheFile source) = (Some bin, Some sig)
    /\ files w' !! cacheFile source = Some (mkFile bin (clock w))
    /\ stat_deny w' = stat_deny w.
Proof.
  intros Hd Hs.
  set (f := cacheFile source).
  assert (Hne : sigFile f <> f) by apply sigFile_neq.
  unfold writeToCache. fold f.
  rewrite (WriteFile_done w f bin Hd).
  set (w1 := with_files (with_written w (written w ++ [f]))
                        (<[f := mkFile bin (clock w)]> (files w))).
  rewrite (WriteFile_done w1 (sigFile f) sig Hs).
  eexists. split; [reflexivity |]. unfold cached_pair. simpl.
  rewrite lookup_insert_ne by exact Hne.
  rewrite !lookup_insert_eq. repeat split.
Qed.

(** X9.  Store, then load: when the pair passes the signature check and
    both files can be written, [writeToCache] returns no error and the
    pair on disk verifies, with the time of writing as its age base; if
    the file can also be statted, [fetchFromCache] on that disk adopts
    exactly the stored blob, with the remainder [prefetchDelay - elapsed]
    as delay while the age is below [cacheTTL] and zero afterwards. *)
Theorem store_then_load (source : Source) (bin sig : bytes) (w : World)
    (now : Time) :
  checkSignature source bin sig = Returns None ->
  cacheFile source ∉ write_deny w ->
  sigFile (cacheFile source) ∉ write_deny w ->
  cacheFile source ∉ stat_deny w ->
  exists w',
    writeToCache source bin sig w = (None, w')
    /\ cached_pair w' (cacheFile source) = (Some bin, Some sig)
    /\ cache_verified source w' bin (clock w)
    /\ fetchFromCache source now w'
       = Returns (if Sub now (clock w) <? cacheTTL source
                  then (dsub (prefetchDelay source) (Sub now (clock w)), None,
                        set_in source bin)
                  else (0, None, set_in source bin)).
Proof.
  intros Hchk Hd Hs Hst.
  destruct (writeToCache_world_files source bin sig w Hd Hs)
    as (w' & Hw & Hpair & Hblob & Hstat).
  exists w'. split; [exact Hw |]. split; [exact Hpair |].
  assert (Hv : cache_verified source w' bin (clock w)).
  { unfold cache_verified, ReadFile, Stat. unfold cached_pair in Hpair.
    injection Hpair as Hb Hsg. rewrite Hstat.
    destruct (decide (cacheFile source ∈ stat_deny w)); [contradiction |].
    rewrite Hblob. split; [reflexivity |]. split; [|reflexivity].
    exists sig. destruct (files w' !! sigFile (cacheFile source)) as [fs|];
      [|discriminate].
    simpl in Hsg. injection Hsg as ->. split; [reflexivity | exact Hchk]. }
  split; [exact Hv |]. apply fetchFromCache_verified. exact Hv.
Qed.

(** X10.  A pair on disk whose signature does not check under the key of
    the source is never trusted, whatever its age: [fetchFromCache]
    returns the error of the check and leaves the source as it was; a
    source without a URL gets that error from [fetchWithCache]; and in
    any case the content after [fetchWithCache] is the old one or the blob
    of a mirror that verifies. *)
Theorem unverified_cache_is_a_miss (source : Source) (now : Time) (w : World)
    (bin sig : bytes) (e : error) :
  ReadFile w (cacheFile source) = inr bin ->
  ReadFile w (sigFile (cacheFile source)) = inr sig ->
  checkSignature source bin sig = Returns (Some e) ->
  fetchFromCache source now w = Returns (0, Some e, source)
  /\ (urls source = [] ->
      fetchWithCache source now w = Returns (0, Some e, source, w))
  /\ (forall d e' s' w',
         fetchWithCache source now w = Returns (d, e', s', w') ->
         in_ s' = in_ source
         \/ exists u sg, u ∈ urls source
                         /\ mirror_verifies source w u (in_ s') sg).
Proof.
  intros Hb Hs Hc.
  assert (Hfc : fetchFromCache source now w = Returns (0, Some e, source)).
  { unfold fetchFromCache. rewrite Hb, Hs, Hc. reflexivity. }
  split; [exact Hfc |]. split.
  - intros Hu. unfold fetchWithCache. rewrite Hfc. simpl. rewrite Hu. reflexivity.
  - intros d e' s' w' H.
    apply fetchWithCache_inv, withCache_source in H as (_ & [Hin | Hacc]);
      [left; exact Hin |].
    destruct Hacc as [sg H1 H2 H3 | u sg H1 H2].
    + rewrite Hb in H1. injection H1 as E1.
      rewrite Hs in H2. injection H2 as E2.
      rewrite <- E1, <- E2, Hc in H3. discriminate.
    + right. eauto.
Qed.

(** X11.  A source without a key (as [NewSource] returns when the key
    does not parse) never loads anything: every returning call of
    [fetchWithCache] returns an error and leaves the content as it was. *)
Theorem keyless_source_never_loads (source : Source) (now : Time) (w : World)
    (d : Duration) (e : option error) (s' : Source) (w' : World) :
  minisignKey source = None ->
  fetchWithCache source now w = Returns (d, e, s', w') ->
  is_Some e /\ in_ s' = in_ source.
Proof.
  intros Hk H. apply fetchWithCache_inv in H.
  assert (Hno : forall s1 b sg, minisignKey s1 = None ->
                                checkSignature s1 b sg <> Returns None).
  { intros s1 b sg Hk1 Hc. apply checkSignature_ok_key in Hc as [k Hk'].
    congruence. }
  assert (Hcache : forall d0 e0 s1,
             fromCache source now w d0 e0 s1 -> is_Some e0 /\ s1 = source).
  { intros d0 e0 s1 Hc.
    inversion Hc as [e1 _|b sg e1 _ _ Hchk _|b mt Hv _|b mt Hv _]; subst.
    - eauto.
    - exfalso. exact (Hno _ _ _ Hk Hchk).
    - destruct Hv as (_ & (sg & _ & Hchk) & _). exfalso. exact (Hno _ _ _ Hk Hchk).
    - destruct Hv as (_ & (sg & _ & Hchk) & _). exfalso. exact (Hno _ _ _ Hk Hchk). }
  inversion H as [d0 e0 s1 Hc Hu|d0 s1 Hc Hu Hpos|d0 e0 s1 b sg e1 w1 Hc Hu Hd Hl
                  |d0 e0 s1 b sg w1 Hc Hu Hd Hl]; subst;
    destruct (Hcache _ _ _ Hc) as [Hsome ->].
  - auto.
  - destruct Hsome as [? [=]].
  - split; [eauto | reflexivity].
  - exfalso. apply fetchLoop_inv in Hl as [_ Hok].
    destruct (Hok eq_refl) as [[Hnil _] | (u & _ & (_ & _ & Hchk))];
      [congruence |].
    exact (Hno _ _ _ Hk Hchk).
Qed.

(** What [NewSource] returns, in full. *)
Lemma NewSource_inv (name : string) (urlStrs : list string)
    (minisignKeyStr cacheFile0 formatStr : string) (refreshDelay : Duration)
    (w : World) (source : Source) (err : option error) (w' : World) :
  NewSource name urlStrs minisignKeyStr cacheFile0 formatStr refreshDelay w
  = Returns (source, err, w') ->
  format source = SourceFormatV2
  /\ (in_ source = [] \/ accepted source w (in_ source))
  /\ (err = None ->
      accepted source w (in_ source)
      /\ is_Some (minisignKey source)
      /\ urls source = parsed_urls urlStrs
      /\ formatStr = "v2").
Proof.
  unfold NewSource.
  destruct (String.eqb_spec formatStr "v2") as [Hf|Hf].
  2:{ intros [= <- <- <-]. simpl. split; [reflexivity |]. split; [auto | discriminate]. }
  destruct (minisign_NewPublicKey minisignKeyStr) as [e|key].
  { intros [= <- <- <-]. simpl. split; [reflexivity |]. split; [auto | discriminate]. }
  set (s0 := parseURLs _ _). intros H.
  apply bind_Returns in H as ([[[d e] s1] w1] & Hfw & H).
  injection H as <- <- <-.
  assert (Hu0 : urls s0 = parsed_urls urlStrs).
  { unfold s0, parseURLs. simpl. rewrite parseURLs_loop_app. reflexivity. }
  apply fetchWithCache_inv in Hfw.
  pose proof (withCache_source _ _ _ _ _ _ _ Hfw) as (Hcfg & Hin).
  destruct Hcfg as (_ & Hurls & Hfmt & Hkey & Hcf & _).
  assert (Hacc : forall b, accepted s0 (w) b -> accepted s1 w b).
  { intros b [sg H1 H2 H3 | u sg H1 H2].
    - apply accepted_cache with (sig := sg).
      + rewrite Hcf. exact H1.
      + rewrite Hcf. exact H2.
      + erewrite checkSignature_key_eq; [exact H3 | exact Hkey].
    - apply accepted_mirror with (u := u) (sig := sg); [rewrite Hurls; exact H1 |].
      eapply mirror_verifies_config; [symmetry; exact Hkey | reflexivity | exact H2]. }
  split; [rewrite Hfmt; reflexivity |]. split.
  { destruct Hin as [Hin | Hin]; [left; rewrite Hin; reflexivity | right; auto]. }
  intros ->. split; [|split; [rewrite Hkey; simpl; eauto | split; [congruence | exact Hf]]].
  apply Hacc.
  inversion Hfw as [d0 e0 s2 Hc Hu|d0 s2 Hc Hu Hpos| |d0 e0 s2 b sg w2 Hc Hu Hd Hl];
    subst.
  - inversion Hc as [| |b mt Hv _|b mt Hv _]; subst;
      destruct Hv as (Hb & (sg & Hs & Hchk) & _);
      simpl; eapply accepted_cache; eauto.
  - inversion Hc as [| |b mt Hv _|b mt Hv _]; subst;
      destruct Hv as (Hb & (sg & Hs & Hchk) & _);
      simpl; eapply accepted_cache; eauto.
  - simpl. destruct (fromCache_source _ _ _ _ _ _ Hc) as ((_ & Hu2 & _ & Hk2 & _) & _).
    apply fetchLoop_inv in Hl as [_ Hok].
    destruct (Hok eq_refl) as [[Hnil _] | (u & Hin' & Hv)]; [congruence |].
    apply accepted_mirror with (u := u) (sig := sg); [congruence |].
    eapply mirror_verifies_config; [exact Hk2 | reflexivity | exact Hv].
Qed.

(** X12.  A source that [NewSource] returns without error has been
    loaded: its format was ["v2"], it has a key, its URLs are the strings
    that parsed, and its content is the cached blob or the blob of one of
    its mirrors, with a signature that checked under its key.  Whatever
    [NewSource] returns, the content is empty or was accepted that way. *)
Theorem NewSource_success_means_loaded (name : string) (urlStrs : list string)
    (minisignKeyStr cacheFile0 formatStr : string) (refreshDelay : Duration)
    (w : World) (source : Source) (err : option error) (w' : World) :
  NewSource name urlStrs minisignKeyStr cacheFile0 formatStr refreshDelay w
  = Returns (source, err, w') ->
  content_trusted source
  /\ (err = None ->
      accepted source w (in_ source)
      /\ is_Some (minisignKey source)
      /\ urls source = parsed_urls urlStrs
      /\ formatStr = "v2").
Proof.
  intros H. apply NewSource_inv in H as (_ & Hin & Hok).
  split; [|exact Hok].
  destruct Hin as [Hin | Hacc]; [left; exact Hin |].
  right. destruct Hacc as [sg _ _ H3 | u sg _ (_ & _ & H3)]; eauto.
Qed.

(** X13.  [Parse] on a source that [NewSource] returned never ends in
    [dlog.Fatal], also when [NewSource] returned it with the
    unsupported-format error: the zero value of the format field is
    [SourceFormatV2], so [Parse] is [parseV2]; and [fetchWithCache] keeps
    the format. *)
Theorem Parse_of_NewSource_is_parseV2 (name : string) (urlStrs : list string)
    (minisignKeyStr cacheFile0 formatStr : string) (refreshDelay : Duration)
    (w : World) (prefix : string) :
  (exists source err w',
      NewSource name urlStrs minisignKeyStr cacheFile0 formatStr refreshDelay w
      = Returns (source, err, w')
      /\ Parse source prefix
         = ParseReturns (fst (parseV2 source prefix)) (snd (parseV2 source prefix)))
  /\ (forall source now w0 d e s' w1,
         format source = SourceFormatV2 ->
         fetchWithCache source now w0 = Returns (d, e, s', w1) ->
         Parse s' prefix
         = ParseReturns (fst (parseV2 s' prefix)) (snd (parseV2 s' prefix))).
Proof.
  assert (HP : forall s, format s = SourceFormatV2 ->
                         Parse s prefix
                         = ParseReturns (fst (parseV2 s prefix))
                                        (snd (parseV2 s prefix))).
  { intros s Hf. unfold Parse. rewrite Hf. simpl.
    destruct (parseV2 s prefix). reflexivity. }
  split.
  - destruct (NewSource_returns name urlStrs minisignKeyStr cacheFile0 formatStr
                refreshDelay w) as (s & e & w' & H & _).
    exists s, e, w'. split; [exact H |].
    apply HP. apply NewSource_inv in H. tauto.
  - intros source now w0 d e s' w1 Hf H.
    apply HP. apply fetchWithCache_inv, withCache_source in H as ((_ & _ & Hfmt & _) & _).
    congruence.
Qed.

(** ** More on [PrefetchSources] *)

Lemma content_trusted_kept (source : Source) (now : Time) (w : World)
    (d : Duration) (e : option error) (s' : Source) (w' : World) :
  fetchWithCache source now w = Returns (d, e, s', w') ->
  content_trusted source -> content_trusted s'.
Proof.
  intros H Ht.
  apply fetchWithCache_inv, withCache_source in H as (Hcfg & Hin).
  destruct Hcfg as (_ & _ & _ & Hkey & _).
  destruct Hin as [Hin | Hacc].
  - destruct Ht as [Hnil | (sg & Hsg)]; [left; congruence |].
    right. exists sg. rewrite Hin.
    rewrite (checkSignature_key_eq s' source _ _ Hkey). exact Hsg.
  - right. destruct Hacc as [sg _ _ H3 | u sg _ (_ & _ & H3)];
      exists sg; rewrite (checkSignature_key_eq s' source _ _ Hkey); exact H3.
Qed.

Lemma requests_frame (source : Source) (now : Time) (w : World)
    (d : Duration) (e : option error) (s' : Source) (w' : World) :
  fetchWithCache source now w = Returns (d, e, s', w') ->
  net w' = net w /\ clock w' = clock w.
Proof.
  intros H. apply fetchWithCache_inv in H.
  inversion H as [| |d0 e0 s1 b sg e1 w1 Hc Hu Hd Hl
                  |d0 e0 s1 b sg w1 Hc Hu Hd Hl]; subst; auto.
  - apply fetchLoop_inv in Hl as [(reqs & -> & _) _]. auto.
  - apply fetchLoop_inv in Hl as [(reqs & -> & _) _].
    destruct (writeToCache_world (set_in s1 b) b sg
                (with_fetched w (fetched w ++ reqs))) as (Hn & _ & Hck).
    rewrite Hn, Hck. auto.
Qed.

Lemma prefetchLoop_idle (now : Time) (sources : list nat)
    (heap : gmap nat Source) (w : World) (interval : Duration) :
  (forall p, p ∈ sources -> exists s, heap !! p = Some s /\ not_due s now) ->
  prefetchLoop now sources interval heap w = Returns (interval, heap, w).
Proof.
  induction sources as [|p rest IH]; intros Hall; [reflexivity |].
  cbn [prefetchLoop].
  destruct (Hall p) as (s & -> & Hnd); [left |].
  replace (IsZero (refresh s) || After (refresh s) now) with true.
  - apply IH. intros q Hq. apply Hall. right. exact Hq.
  - symmetry. apply orb_true_iff. unfold IsZero, After.
    destruct Hnd as [H0 | Hlt]; [left; apply Z.eqb_eq | right; apply Z.ltb_lt];
      assumption.
Qed.

(** X14.  A sweep over sources none of which is due (each has the zero
    [refresh], as a source without a URL has, or a [refresh] after now)
    does nothing: it returns the minimum interval and leaves every source
    and the world as they were. *)
Theorem sweep_of_not_due_sources_is_idle (sources : list nat)
    (heap : gmap nat Source) (w : World) :
  (forall p, p ∈ sources ->
             exists s, heap !! p = Some s /\ not_due s (timeNow w)) ->
  PrefetchSources sources heap w
  = Returns (MinimumPrefetchInterval, heap, w).
Proof. intros H. unfold PrefetchSources. apply prefetchLoop_idle. exact H. Qed.

Lemma prefetchLoop_sources (now : Time) (sources : list nat) :
  forall interval heap w interval' heap' w',
    prefetchLoop now sources interval heap w = Returns (interval', heap', w') ->
    (forall p s,
        heap !! p = Some s ->
        exists s', heap' !! p = Some s'
                   /\ same_config s s'
                   /\ (p ∉ sources -> s' = s)
                   /\ (content_trusted s -> content_trusted s'))
    /\ (forall p, heap !! p = None -> heap' !! p = None)
    /\ net w' = net w /\ clock w' = clock w.
Proof.
  induction sources as [|p0 rest IH]; intros interval heap w interval' heap' w' H.
  - simpl in H. injection H as <- <- <-.
    split; [|auto]. intros p s Hp. exists s.
    split; [exact Hp |]. split; [apply same_config_refl | auto].
  - cbn [prefetchLoop] in H.
    destruct (heap !! p0) as [s0|] eqn:Hp0; [|discriminate].
    assert (Hskip : forall i,
               prefetchLoop now rest i heap w = Returns (interval', heap', w') ->
               (forall p s,
                   heap !! p = Some s ->
                   exists s', heap' !! p = Some s'
                              /\ same_config s s'
                              /\ (p ∉ p0 :: rest -> s' = s)
                              /\ (content_trusted s -> content_trusted s'))
               /\ (forall p, heap !! p = None -> heap' !! p = None)
               /\ net w' = net w /\ clock w' = clock w).
    { intros i Hi. apply IH in Hi as (Hs & Hrest). split; [|exact Hrest].
      intros p s Hp. destruct (Hs p s Hp) as (s' & H1 & H2 & H3 & H4).
      exists s'. split; [exact H1 |]. split; [exact H2 |]. split; [|exact H4].
      intros Hn. apply H3. intros Hin. apply Hn. right. exact Hin. }
    destruct (IsZero (refresh s0) || After (refresh s0) now); [eapply Hskip; exact H |].
    apply bind_Returns in H as ([[[d e] s0'] w1] & Hf & H). cbv beta iota in H.
    assert (Hgo : forall i,
               prefetchLoop now rest i (<[p0 := s0']> heap) w1
               = Returns (interval', heap', w') ->
               (forall p s,
                   heap !! p = Some s ->
                   exists s', heap' !! p = Some s'
                              /\ same_config s s'
                              /\ (p ∉ p0 :: rest -> s' = s)
                              /\ (content_trusted s -> content_trusted s'))
               /\ (forall p, heap !! p = None -> heap' !! p = None)
               /\ net w' = net w /\ clock w' = clock w).
    { intros i Hi. apply IH in Hi as (Hs & Hnone & Hnet & Hclock).
      pose proof (content_trusted_kept _ _ _ _ _ _ _ Hf) as Htr.
      pose proof (requests_frame _ _ _ _ _ _ _ Hf) as (Hn1 & Hc1).
      pose proof Hf as Hcfg.
      apply fetchWithCache_inv, withCache_source in Hcfg as (Hcfg & _).
      split; [|split; [|split; congruence]].
      - intros p s Hp. destruct (decide (p = p0)) as [->|Hne].
        + assert (s = s0) by congruence. subst s.
          destruct (Hs p0 s0') as (s' & H1 & H2 & _ & H4);
            [apply lookup_insert_eq |].
          exists s'. split; [exact H1 |].
          split; [eapply same_config_trans; eassumption |].
          split; [|auto]. intros Hn. exfalso. apply Hn. left.
        + destruct (Hs p s) as (s' & H1 & H2 & H3 & H4).
          { rewrite lookup_insert_ne by congruence. exact Hp. }
          exists s'. split; [exact H1 |]. split; [exact H2 |]. split; [|exact H4].
          intros Hn. apply H3. intros Hin. apply Hn. right. exact Hin.
      - intros p Hp. apply Hnone.
        rewrite lookup_insert_ne by congruence. exact Hp. }
    destruct e; [eapply Hgo; exact H |].
    destruct (_ && _); eapply Hgo; exact H.
Qed.

(** X15.  A sweep that returns keeps the set of sources, changes no
    source that is not listed, keeps the configuration (name, URLs,
    format, key, cache file, [cacheTTL], [prefetchDelay]) of every source,
    and keeps every source trusted: content that was empty or signed under
    the key of its source is so afterwards.  The network and the clock
    stay as they were. *)
Theorem sweep_keeps_sources_trusted (sources : list nat)
    (heap : gmap nat Source) (w : World) (interval : Duration)
    (heap' : gmap nat Source) (w' : World) :
  PrefetchSources sources heap w = Returns (interval, heap', w') ->
  (forall p s,
      heap !! p = Some s ->
      exists s', heap' !! p = Some s'
                 /\ same_config s s'
                 /\ (p ∉ sources -> s' = s)
                 /\ (content_trusted s -> content_trusted s'))
  /\ (forall p, heap !! p = None -> heap' !! p = None)
  /\ net w' = net w /\ clock w' = clock w.
Proof. unfold PrefetchSources. apply prefetchLoop_sources. Qed.

(** X16.  The wait that a returning sweep recommends is at least ten
    minutes, whatever the sources did; a sweep over a list with a nil
    pointer does not return. *)
Theorem sweep_wait_at_least_minimum (sources : list nat)
    (heap : gmap nat Source) (w : World) :
  (forall interval heap' w',
      PrefetchSources sources heap w = Returns (interval, heap', w') ->
      10 * Minute <= interval /\ 0 < interval)
  /\ (forall p rest,
         sources = p :: rest -> heap !! p = None ->
         PrefetchSources sources heap w = Panics).
Proof.
  split.
  - intros interval heap' w' H.
    assert (Hmin : MinimumPrefetchInterval <= interval).
    { unfold PrefetchSources in H.
      eapply prefetchLoop_floor; [|exact H]. lia. }
    change MinimumPrefetchInterval with (10 * Minute) in Hmin.
    split; [exact Hmin |].
    assert (0 < 10 * Minute) by reflexivity. lia.
  - intros p rest -> Hp. unfold PrefetchSources. cbn [prefetchLoop].
    rewrite Hp. reflexivity.
Qed.

(** ** More on [parseV2] *)

Lemma has_name_and_body_dec (part : string) :
  has_name_and_body part \/ ~ has_name_and_body part.
Proof.
  unfold has_name_and_body.
  destruct (le_dec 2 (length (Split (TrimSpaceFunc part) LF)));
    destruct (string_dec (section_name part) ""); tauto.
Qed.

(** The sections split into a leading run that satisfy
    [has_name_and_body], and, if the run ends early, the section that ends
    it. *)
Lemma sections_split (parts : list string) :
  Forall has_name_and_body parts
  \/ exists good bad_part rest,
       parts = (good ++ bad_part :: rest)%list
       /\ Forall has_name_and_body good
       /\ ~ has_name_and_body bad_part.
Proof.
  induction parts as [|part rest IH]; [left; constructor |].
  destruct (has_name_and_body_dec part) as [Hp|Hp].
  - destruct IH as [Hall | (good & bad_part & rest' & -> & Hg & Hb)].
    + left. constructor; assumption.
    + right. exists (part :: good), bad_part, rest'.
      split; [reflexivity |]. split; [constructor; assumption | exact Hb].
  - right. exists [], part, rest. split; [reflexivity |].
    split; [constructor | exact Hp].
Qed.

Lemma entries_of_elem (prefix : string) (parts : list string)
    (rs : RegisteredServer) :
  rs ∈ entries_of prefix parts ->
  exists part, part ∈ parts /\ entry_of prefix part = Entry rs.
Proof.
  induction parts as [|part rest IH]; intros H.
  - unfold entries_of in H. simpl in H. inversion H.
  - rewrite entries_of_cons in H.
    destruct (entry_of prefix part) as [msg|rs0] eqn:He.
    + destruct (IH H) as (p & Hp & Hrs). exists p. split; [right; exact Hp | exact Hrs].
    + apply elem_of_cons in H as [-> | H].
      * exists part. split; [left | exact He].
      * destruct (IH H) as (p & Hp & Hrs). exists p.
        split; [right; exact Hp | exact Hrs].
Qed.

Lemma entries_length (prefix : string) (parts : list string) :
  (length (entries_of prefix parts) + length (entry_errors_of prefix parts)
   = length parts)%nat.
Proof.
  induction parts as [|part rest IH]; [reflexivity |].
  rewrite entries_of_cons, entry_errors_of_cons.
  destruct (entry_of prefix part); simpl; lia.
Qed.

(** [parseV2] on a text with sections that all satisfy
    [has_name_and_body], on one with a section that does not, and on one
    without a section. *)
Lemma parseV2_sections (source : Source) (prefix : string) :
  (sections source <> [] ->
   Forall has_name_and_body (sections source) ->
   parseV2 source prefix
   = (entries_of prefix (sections source),
      match entry_errors_of prefix (sections source) with
      | [] => None
      | _ :: _ =>
          Some (ErrStamps (Join (entry_errors_of prefix (sections source)) ", "))
      end))
  /\ (forall good bad_part rest,
         sections source = (good ++ bad_part :: rest)%list ->
         Forall has_name_and_body good ->
         ~ has_name_and_body bad_part ->
         parseV2 source prefix
         = (entries_of prefix good, Some (ErrInvalidFormat (urls source))))
  /\ (sections source = [] ->
      parseV2 source prefix = ([], Some (ErrInvalidFormat (urls source)))).
Proof.
  assert (Hlen : forall l : list string,
             l <> [] -> (Z.of_nat (length l) <? 2) = true <-> tl l = []).
  { intros [|a [|b l]] H.
    - congruence.
    - split; intros _; reflexivity.
    - split; intros H'; [|discriminate].
      apply Z.ltb_lt in H'. cbn [length] in H'. lia. }
  split; [|split].
  - intros Hne Hall. unfold parseV2. fold (sections source).
    destruct (Z.of_nat (length (Split (string_of_bytes (in_ source)) "## ")) <? 2)
      eqn:Hl.
    { apply Hlen in Hl; [|apply Split_nonempty]. contradiction. }
    rewrite (partsLoop_entries prefix (sections source) Hall). simpl.
    destruct (entry_errors_of prefix (sections source)); reflexivity.
  - intros good bad_part rest Hs Hgood Hbad. unfold parseV2.
    fold (sections source).
    destruct (Z.of_nat (length (Split (string_of_bytes (in_ source)) "## ")) <? 2)
      eqn:Hl.
    { apply Hlen in Hl; [|apply Split_nonempty].
      unfold sections in Hs. rewrite Hl in Hs. destruct good; discriminate. }
    rewrite Hs, (partsLoop_format_error prefix good bad_part rest Hgood Hbad).
    reflexivity.
  - intros Hs. unfold parseV2.
    destruct (Z.of_nat (length (Split (string_of_bytes (in_ source)) "## ")) <? 2)
      eqn:Hl; [reflexivity |].
    exfalso. apply Bool.not_true_iff_false in Hl. apply Hl.
    apply Hlen; [apply Split_nonempty | exact Hs].
Qed.

(** What [parseV2] returns as entries, for any content. *)
Lemma parseV2_entries (source : Source) (prefix : string) :
  exists good,
    good `prefix_of` sections source
    /\ Forall has_name_and_body good
    /\ fst (parseV2 source prefix) = entries_of prefix good.
Proof.
  destruct (sections source) as [|p0 ps] eqn:Hs.
  { exists []. split; [apply prefix_nil |]. split; [constructor |].
    rewrite (proj2 (proj2 (parseV2_sections source prefix)) Hs).
    reflexivity. }
  destruct (sections_split (p0 :: ps))
    as [Hall | (good & bad_part & rest & Heq & Hg & Hb)].
  - exists (p0 :: ps). split; [reflexivity |]. split; [exact Hall |].
    rewrite (proj1 (parseV2_sections source prefix)); rewrite Hs;
      [reflexivity | discriminate | exact Hall].
  - exists good. split; [exists (bad_part :: rest); exact Heq |].
    split; [exact Hg |].
    rewrite (proj1 (proj2 (parseV2_sections source prefix)) good bad_part rest);
      [reflexivity | rewrite Hs; exact Heq | exact Hg | exact Hb].
Qed.

(** X17.  Every entry that [parseV2] returns, on any content, comes from
    one section of the text: that section has a name and a body, the name
    of the entry is the prefix followed by the name of the section, the
    section has exactly one descriptor line, of at least six bytes and
    beginning with ["sdns:"], the stamp of the entry is what the decoder
    made of that line, and the description is the free text of the
    section.  The entries are those of a leading run of the sections, in
    order, so there are never more entries than sections. *)
Theorem parseV2_entries_come_from_sections (source : Source) (prefix : string) :
  (forall rs,
      rs ∈ fst (parseV2 source prefix) ->
      exists part d,
        part ∈ sections source
        /\ has_name_and_body part
        /\ rs_name rs = prefix ++ section_name part
        /\ descriptors part = [d]
        /\ is_descriptor d = true
        /\ 6 <= len d
        /\ stamps_NewServerStampFromString d = inr (rs_stamp rs)
        /\ rs_description rs = free_text part)
  /\ (exists good,
         good `prefix_of` sections source
         /\ fst (parseV2 source prefix) = entries_of prefix good)
  /\ (length (fst (parseV2 source prefix)) <= length (sections source))%nat.
Proof.
  destruct (parseV2_entries source prefix) as (good & Hpre & Hg & Heq).
  split; [|split].
  - intros rs Hrs. rewrite Heq in Hrs.
    apply entries_of_elem in Hrs as (part & Hin & He).
    assert (Hsec : part ∈ sections source).
    { destruct Hpre as [k ->]. apply elem_of_app. left. exact Hin. }
    assert (Hwf : has_name_and_body part).
    { rewrite Forall_forall in Hg. apply Hg. exact Hin. }
    unfold entry_of in He.
    destruct (descriptors part) as [|d [|d' r]] eqn:Hd; try discriminate.
    destruct (Z.ltb_spec (len d) 6) as [Hlt|Hge]; [discriminate |].
    destruct (stamps_NewServerStampFromString d) as [e|stamp] eqn:Hst;
      [discriminate |].
    injection He as <-. exists part, d. simpl.
    assert (Hisd : is_descriptor d = true).
    { assert (Hind : In d (descriptors part)) by (rewrite Hd; left; reflexivity).
      unfold descriptors in Hind. apply filter_In in Hind. tauto. }
    split; [exact Hsec |]. split; [exact Hwf |]. split; [reflexivity |].
    split; [exact Hd |]. split; [exact Hisd |]. split; [exact Hge |].
    split; [exact Hst | reflexivity].
  - exists good. split; assumption.
  - rewrite Heq. destruct Hpre as [k Hk]. rewrite Hk, length_app.
    pose proof (entries_length prefix good). lia.
Qed.

(** X18.  When the text has a marker and every section, once white space
    (line feeds included) has been trimmed from both its ends, has at least
    two lines, the first of them not empty ([has_name_and_body]), each
    section gives exactly one entry or one collected error, and [parseV2]
    returns no error exactly when every section gave an entry.  A section
    whose name is followed by blank lines only is a single line once
    trimmed, so a text with such a section is outside this statement. *)
Theorem parseV2_accounts_for_sections (source : Source) (prefix : string) :
  sections source <> [] ->
  Forall has_name_and_body (sections source) ->
  (length (fst (parseV2 source prefix))
   + length (entry_errors_of prefix (sections source))
   = length (sections source))%nat
  /\ (snd (parseV2 source prefix) = None
      <-> length (fst (parseV2 source prefix)) = length (sections source)).
Proof.
  intros Hne Hall.
  rewrite (proj1 (parseV2_sections source prefix) Hne Hall). cbn [fst snd].
  pose proof (entries_length prefix (sections source)) as Hlen.
  split; [exact Hlen |].
  destruct (entry_errors_of prefix (sections source)) as [|m ms];
    cbn [length] in Hlen; split; intros H.
  - lia.
  - reflexivity.
  - discriminate.
  - exfalso. lia.
Qed.

(** ** Signature URLs *)

Lemma string_append_inv_r (a b c : string) : a ++ c = b ++ c -> a = b.
Proof.
  revert b. induction a as [|x a IH]; intros b H.
  - destruct b as [|y b]; [reflexivity |]. exfalso.
    apply (f_equal String.length) in H.
    rewrite !string_length_append in H. simpl in H. lia.
  - destruct b as [|y b].
    + exfalso. apply (f_equal String.length) in H.
      rewrite !string_length_append in H. simpl in H. lia.
    + change (String x (a ++ c) = String y (b ++ c)) in H.
      injection H as -> H. f_equal. apply IH. exact H.
Qed.

(** X19.  The URL of the signature of a mirror is the URL of the mirror
    with [".minisig"] appended to its path and nothing else changed; it is
    never the URL of the mirror itself, and two mirrors have the same
    signature URL only if they are the same. *)
Theorem sigURL_derivation (u v : URL) :
  Path (sigURL u) = Path u ++ ".minisig"
  /\ Scheme (sigURL u) = Scheme u /\ Host (sigURL u) = Host u
  /\ RawQuery (sigURL u) = RawQuery u
  /\ sigURL u <> u
  /\ (sigURL u = sigURL v -> u = v).
Proof.
  repeat split.
  - intros H. apply (f_equal Path) in H. simpl in H.
    apply (f_equal String.length) in H.
    rewrite string_length_append in H. simpl in H. lia.
  - intros H. destruct u as [s1 h1 p1 q1], v as [s2 h2 p2 q2].
    unfold sigURL in H. simpl in H. injection H as -> -> Hp ->.
    apply string_append_inv_r in Hp. subst. reflexivity.
Qed.

(** The disk after a store of a pair that verifies. *)
Lemma store_load_disk (source : Source) (bin sig : bytes) (w : World) :
  checkSignature source bin sig = Returns None ->
  cacheFile source ∉ write_deny w ->
  sigFile (cacheFile source) ∉ write_deny w ->
  cacheFile source ∉ stat_deny w ->
  exists w',
    writeToCache source bin sig w = (None, w')
    /\ cache_verified source w' bin (clock w).
Proof.
  intros Hchk Hd Hs Hst.
  destruct (writeToCache_world_files source bin sig w Hd Hs)
    as (w' & Hw & Hpair & Hblob & Hstat).
  exists w'. split; [exact Hw |].
  unfold cache_verified, ReadFile, Stat. unfold cached_pair in Hpair.
  injection Hpair as Hb Hsg. rewrite Hstat.
  destruct (decide (cacheFile source ∈ stat_deny w)); [contradiction |].
  rewrite Hblob. split; [reflexivity |]. split; [|reflexivity].
  exists sig. destruct (files w' !! sigFile (cacheFile source)) as [fs|];
    [|discriminate].
  simpl in Hsg. injection Hsg as ->. split; [reflexivity | exact Hchk].
Qed.

(** ** A refresh, then a load *)

(** X20.  A network refresh feeds the next load: when the source has no
    cache file, a mirror verifies after the mirrors before it failed, and
    the cache files can be written and statted, [fetchWithCache] returns
    without error and leaves on disk a pair that verifies, written at the
    time of the clock; a later call, while the age of that pair is below
    [cacheTTL] and [prefetchDelay - elapsed] is positive, returns the same
    content without a request and without writing. *)
Theorem network_refresh_then_cache_hit (source : Source) (now now2 : Time)
    (w : World) (e0 : error) (pre post : list URL) (u : URL) (b s : bytes) :
  ReadFile w (cacheFile source) = inl e0 ->
  urls source = (pre ++ u :: post)%list ->
  Forall (fun m => exists e, mirror_fails source w m e) pre ->
  mirror_verifies source w u b s ->
  cacheFile source ∉ write_deny w ->
  sigFile (cacheFile source) ∉ write_deny w ->
  cacheFile source ∉ stat_deny w ->
  Sub now2 (clock w) < cacheTTL source ->
  0 < dsub (prefetchDelay source) (Sub now2 (clock w)) ->
  exists s1 w1 d2 s2,
    fetchWithCache source now w = Returns (prefetchDelay source, None, s1, w1)
    /\ in_ s1 = b
    /\ cache_verified s1 w1 b (clock w)
    /\ fetchWithCache s1 now2 w1 = Returns (d2, None, s2, w1)
    /\ in_ s2 = b
    /\ d2 = dsub (prefetchDelay source) (Sub now2 (clock w)).
Proof.
  intros Hr Hu Hpre Hv Hd Hs Hst Hlt Hpos.
  assert (Hne : urls source <> []) by (rewrite Hu; destruct pre; discriminate).
  rewrite (fetchWithCache_miss source now w e0 Hr Hne), Hu.
  rewrite (fetchLoop_first_verified source w pre post u b s Hpre Hv w [] []
             (Some e0) eq_refl).
  cbn [mbind outcome_bind]. cbv beta iota.
  set (wl := with_fetched w (fetched w ++ concat (map (requests w) pre)
                                       ++ [u; sigURL u])).
  set (sb := set_in source b).
  set (s1 := set_refresh sb (Add now (prefetchDelay source))).
  assert (Hchk : checkSignature sb b s = Returns None).
  { destruct Hv as (_ & _ & Hc). exact Hc. }
  destruct (store_load_disk sb b s wl Hchk Hd Hs Hst) as (w1 & Hw & Hcv).
  rewrite Hw. cbn [snd].
  assert (Hcv1 : cache_verified s1 w1 b (clock w)).
  { eapply cache_verified_config; [apply same_config_set_refresh | exact Hcv]. }
  pose proof (fetchWithCache_fresh s1 now2 w1 b (clock w) Hcv1 Hlt (or_intror Hpos))
    as Hf.
  exists s1, w1. do 2 eexists.
  split; [reflexivity |]. split; [reflexivity |]. split; [exact Hcv1 |].
  split; [exact Hf |]. split; [|reflexivity].
  rewrite in_deferred. reflexivity.
Qed.

End MoreFacts.

(** * Concrete runs *)

#[local] Existing Instance Toy.ext.

Section Runs.

Import Toy.

(** The disk of [Toy.disk] holds a pair that verifies under ["K"]. *)
Lemma toy_cache_verified (mirrors : list URL) (ttl : Duration)
    (nw : URL -> Response) (mtime now : Time) :
  cache_verified (source mirrors ttl) (world (disk mtime) nw now) blobA mtime.
Proof.
  unfold cache_verified. split; [reflexivity |]. split; [|reflexivity].
  exists (sign "K" blobA). split; reflexivity.
Qed.

End Runs.

(** C1, on a run: no cache, the mirrors [/m1] (down), [/m2] (signature of
    another blob) and [/m3] (signed); the call returns and the content it
    leaves is accepted content. *)
Lemma content_only_after_verification_witness :
  let S := Toy.source [Toy.mirror "/m1"; Toy.mirror "/m2"; Toy.mirror "/m3"]
                      DefaultPrefetchDelay in
  let W := Toy.world ∅ Toy.net3 Toy.t0 in
  exists d e s' w',
    fetchWithCache S Toy.t0 W = Returns (d, e, s', w')
    /\ minisignKey s' = minisignKey S
    /\ (in_ s' = in_ S \/ accepted S W (in_ s')).
Proof.
  intros S W.
  destruct (proj1 (content_only_after_verification S Toy.t0 W))
    as (d & e & s' & w' & H).
  { exists "K". reflexivity. }
  exists d, e, s', w'. split; [exact H |].
  exact (proj1 (proj2 (content_only_after_verification S Toy.t0 W)) d e s' w' H).
Defined.



(** C3, as stated, fails: the cached pair verifies and is forty-eight
    hours old, below the [cacheTTL] of seventy-two hours, yet each of two
    calls in succession sends a request to the mirror. *)
Lemma fresh_by_ttl_still_fetches :
  let S := Toy.source [Toy.mirror "/m1"] (72 * Hour) in
  let now := Toy.t0 + 48 * Hour in
  let W := Toy.world (Toy.disk Toy.t0) Toy.net_down now in
  cache_verified S W Toy.blobA Toy.t0
  /\ Sub now Toy.t0 < cacheTTL S
  /\ exists d1 e1 s1 w1 d2 e2 s2 w2,
       fetchWithCache S now W = Returns (d1, e1, s1, w1)
       /\ fetchWithCache s1 now w1 = Returns (d2, e2, s2, w2)
       /\ fetched W = []
       /\ fetched w1 = [Toy.mirror "/m1"]
       /\ fetched w2 = [Toy.mirror "/m1"; Toy.mirror "/m1"].
Proof.
  intros S now W. split; [apply toy_cache_verified |]. split; [reflexivity |].
  do 8 eexists. split; [vm_compute; reflexivity |].
  split; [vm_compute; reflexivity |]. repeat split.
Qed.

(** C3, amended, on a run: a cache that is one hour old at the first call
    and two hours old at the second. *)
Lemma fresh_cache_resolve_twice_witness :
  let S := Toy.source [Toy.mirror "/m1"] (72 * Hour) in
  let W := Toy.world (Toy.disk Toy.t0) Toy.net_down Toy.t0 in
  exists d1 d2 s1 s2,
    fetchWithCache S (Toy.t0 + Hour) W = Returns (d1, None, s1, W)
    /\ fetchWithCache s1 (Toy.t0 + 2 * Hour) W = Returns (d2, None, s2, W)
    /\ in_ s1 = Toy.blobA /\ in_ s2 = Toy.blobA.
Proof.
  intros S W.
  apply (fresh_cache_resolve_twice S (Toy.t0 + Hour) (Toy.t0 + 2 * Hour) W
                                   Toy.blobA Toy.t0).
  - apply toy_cache_verified.
  - reflexivity.
  - reflexivity.
  - right. split; reflexivity.
Defined.

(** C4, on a run: no cache and a mirror that is down. *)
Lemma failed_refresh_waits_minimum_witness :
  let S := Toy.source [Toy.mirror "/m1"] DefaultPrefetchDelay in
  let W := Toy.world ∅ Toy.net_down Toy.t0 in
  exists d e s' w',
    fetchWithCache S Toy.t0 W = Returns (d, Some e, s', w')
    /\ d = MinimumPrefetchInterval
    /\ refresh s' = Add Toy.t0 MinimumPrefetchInterval
    /\ Sub (refresh s') Toy.t0 = 10 * Minute
    /\ 0 < Sub (refresh s') Toy.t0.
Proof.
  intros S W. do 4 eexists.
  assert (H : fetchWithCache S Toy.t0 W
              = Returns (MinimumPrefetchInterval,
                         Some (Toy.bad "unreachable"),
                         set_refresh S (Add Toy.t0 MinimumPrefetchInterval),
                         with_fetched W [Toy.mirror "/m1"]))
    by reflexivity.
  split; [exact H |].
  refine (failed_refresh_waits_minimum S Toy.t0 W _ _ _ _ _ H). discriminate.
Defined.

(** C5, on a run: [/m1] is down, [/m2] serves a signature that does not
    check, [/m3] verifies. *)
Lemma mirrors_tried_in_order_witness :
  let S := Toy.source [Toy.mirror "/m1"; Toy.mirror "/m2"; Toy.mirror "/m3"]
                      DefaultPrefetchDelay in
  let W := Toy.world ∅ Toy.net3 Toy.t0 in
  fetchLoop S [Toy.mirror "/m1"; Toy.mirror "/m2"; Toy.mirror "/m3"] [] [] None W
  = Returns (Toy.blobB, Toy.sign "K" Toy.blobB, None,
             with_fetched W [Toy.mirror "/m1";
                             Toy.mirror "/m2"; sigURL (Toy.mirror "/m2");
                             Toy.mirror "/m3"; sigURL (Toy.mirror "/m3")]).
Proof.
  intros S W.
  apply (proj1 (proj2 (proj2 (mirrors_tried_in_order S W [] [] None)))
           (Toy.mirror "/m1") (Toy.mirror "/m2") (Toy.mirror "/m3")
           (Toy.bad "unreachable") (Toy.bad "signature does not match")
           [] Toy.blobB (Toy.sign "K" Toy.blobA) Toy.blobB (Toy.sign "K" Toy.blobB)).
  - reflexivity.
  - reflexivity.
  - reflexivity.
  - reflexivity.
  - repeat split.
Defined.

(** C6, as stated, fails: section [A] has no descriptor and section [B] is
    a valid entry, yet the result is the format error with no entry. *)
Lemma name_only_section_aborts_parse :
  let text := "## A" ++ LF ++ "## B" ++ LF ++ sample_stamp ++ LF in
  sections (Toy.loaded text) = ["A" ++ LF; "B" ++ LF ++ sample_stamp ++ LF]
  /\ descriptors ("A" ++ LF) = []
  /\ entry_of "" ("B" ++ LF ++ sample_stamp ++ LF)
     = Entry (@mkRegisteredServer Toy.ext "B" sample_stamp "")
  /\ parseV2 (Toy.loaded text) "" = ([], Some (ErrInvalidFormat [])).
Proof. intros text. repeat split; vm_compute; reflexivity. Qed.

(** C6, amended, on a run: the text of sections [A] and [B]. *)
Lemma parseV2_entry_errors_witness :
  parseV2 (Toy.loaded (two_sections sample_stamp)) ""
  = ([@mkRegisteredServer Toy.ext "B" sample_stamp ""],
     Some (ErrStamps "Invalid or unsupported stamp [sdns://bad]: bad stamp"))
  /\ entry_errors_of "" (sections (Toy.loaded (two_sections sample_stamp)))
     = ["Invalid or unsupported stamp [sdns://bad]: bad stamp"].
Proof.
  apply (proj1 (proj2 (proj2 (proj2 (parseV2_entry_errors
                                       (Toy.loaded (two_sections sample_stamp))
                                       ""))))
           (Toy.bad "bad stamp") sample_stamp); reflexivity.
Defined.

(** C7.  Two sources are due and both refresh without error: the first
    returns the delay of exactly ten minutes, the second the delay of
    twenty-four hours.  The smaller of the two is ten minutes, but the
    sweep returns twenty-four hours: the test [interval ==
    MinimumPrefetchInterval] takes the ten minutes it has just recorded
    for the initial value.  With the two sources in the other order the
    sweep returns ten minutes. *)
Theorem PrefetchSources_floor_delay_replaced :
  let now := timeNow Toy.worldAB in
  (exists sA wA,
      fetchWithCache Toy.dueA now Toy.worldAB = Returns (10 * Minute, None, sA, wA))
  /\ (exists sB wB,
         fetchWithCache Toy.dueB now Toy.worldAB = Returns (24 * Hour, None, sB, wB))
  /\ (exists heap' w',
         PrefetchSources [1%nat; 2%nat] Toy.heapAB Toy.worldAB
         = Returns (24 * Hour, heap', w'))
  /\ (exists heap' w',
         PrefetchSources [2%nat; 1%nat] Toy.heapAB Toy.worldAB
         = Returns (10 * Minute, heap', w'))
  /\ Z.min (10 * Minute) (24 * Hour) = 10 * Minute
  /\ 10 * Minute <> 24 * Hour.
Proof.
  intros now. repeat split.
  - do 2 eexists. vm_compute. reflexivity.
  - do 2 eexists. vm_compute. reflexivity.
  - do 2 eexists. vm_compute. reflexivity.
  - do 2 eexists. vm_compute. reflexivity.
  - discriminate.
Qed.

(** C8, on a run: a [refreshDelay] of five nanoseconds. *)
Lemma NewSource_cacheTTL_floor_run :
  exists source err w',
    NewSource "public" ["/m3"] "K" "cache.md" "v2" 5
              (Toy.world ∅ Toy.net3 Toy.t0)
    = Returns (source, err, w')
    /\ cacheTTL source = 24 * Hour.
Proof. do 3 eexists. split; [vm_compute; reflexivity | reflexivity]. Qed.

(** C9, on a run: no cache and a mirror that verifies. *)
Lemma NewSource_prefetchDelay_constant_witness :
  let S := Toy.source [Toy.mirror "/m3"] (72 * Hour) in
  let W := Toy.world ∅ Toy.net3 Toy.t0 in
  exists s' w',
    fetchWithCache S Toy.t0 W = Returns (24 * Hour, None, s', w')
    /\ prefetchDelay s' = DefaultPrefetchDelay
    /\ refresh s' = Add Toy.t0 (24 * Hour).
Proof.
  intros S W.
  assert (H : exists s' w',
             fetchWithCache S Toy.t0 W = Returns (24 * Hour, None, s', w')
             /\ fetched w' <> fetched W).
  { do 2 eexists. split; [vm_compute; reflexivity | discriminate]. }
  destruct H as (s' & w' & H & Hf).
  exists s', w'. split; [exact H |].
  destruct (proj2 NewSource_prefetchDelay_constant S Toy.t0 W _ _ s' w' eq_refl H)
    as (Hpd & Hd).
  split; [exact Hpd |]. exact (proj2 (Hd eq_refl Hf)).
Defined.

(** C10, on a run: the cache is one nanosecond short of twenty-four hours
    old; the delay is one nanosecond, far below ten minutes. *)
Lemma fresh_cache_schedule_unfloored_witness :
  let S := Toy.source [Toy.mirror "/m1"] DefaultPrefetchDelay in
  let now := Toy.t0 + 24 * Hour - 1 in
  let W := Toy.world (Toy.disk Toy.t0) Toy.net_down now in
  1 < MinimumPrefetchInterval
  /\ exists s',
       fetchWithCache S now W = Returns (1, None, s', W)
       /\ refresh s' = Add now 1
       /\ Sub (refresh s') now = 1.
Proof.
  intros S now W. split; [reflexivity |].
  apply (proj2 (fresh_cache_schedule_unfloored S now W Toy.blobA Toy.t0
                  (toy_cache_verified _ _ _ _ _)
                  (ltac:(discriminate)) (ltac:(reflexivity))) 1).
  - split; [reflexivity | discriminate].
  - reflexivity.
Defined.

(** * Concrete runs of the further facts *)

(** X1, on a run: two strings that do not parse leave the source as it
    is. *)
Lemma parseURLs_appends_parsed_witness :
  parseURLs (Toy.source [Toy.mirror "/m1"] DefaultPrefetchDelay) [""; ""]
  = Toy.source [Toy.mirror "/m1"] DefaultPrefetchDelay.
Proof.
  apply (proj1 (proj2 (proj2 (parseURLs_appends_parsed
                                (Toy.source [Toy.mirror "/m1"] DefaultPrefetchDelay)
                                [""; ""])))).
  repeat constructor; exists (Toy.bad "empty url"); reflexivity.
Defined.

(** X2, on a run: a body of six bytes, far below the cap. *)
Lemma fetchFromURL_capped_witness :
  fst (fetchFromURL (Toy.world ∅ Toy.net3 Toy.t0) (Toy.mirror "/m3"))
  = (Toy.blobB, None).
Proof.
  apply (proj1 (proj1 (proj2 (fetchFromURL_capped
                                (Toy.world ∅ Toy.net3 Toy.t0) (Toy.mirror "/m3")))
                      Toy.blobB None eq_refl)).
  reflexivity.
Defined.

(** X3, on a run: the format ["v1"]. *)
Lemma NewSource_rejects_before_io_witness :
  exists source,
    NewSource "public" ["/m3"] "K" "cache.md" "v1" (72 * Hour)
              (Toy.world ∅ Toy.net3 Toy.t0)
    = Returns (source, Some (ErrUnsupportedFormat "v1"),
               Toy.world ∅ Toy.net3 Toy.t0)
    /\ minisignKey source = None /\ urls source = []
    /\ in_ source = [] /\ refresh source = 0.
Proof.
  apply (proj1 (NewSource_rejects_before_io "public" ["/m3"] "K" "cache.md" "v1"
                  (72 * Hour) (Toy.world ∅ Toy.net3 Toy.t0))).
  discriminate.
Defined.

(** X4, on a run: a source without a URL and a cache that verifies. *)
Lemma cache_only_source_left_alone_witness :
  let S := Toy.source [] DefaultPrefetchDelay in
  let W := Toy.world (Toy.disk Toy.t0) Toy.net3 (Toy.t0 + Hour) in
  exists d e s' w',
    fetchWithCache S (Toy.t0 + Hour) W = Returns (d, e, s', w')
    /\ w' = W /\ refresh s' = refresh S
    /\ (e = None ->
        exists bin mtime, cache_verified S W bin mtime /\ in_ s' = bin)
    /\ (is_Some e -> d = 0).
Proof.
  intros S W.
  assert (H : exists d e s' w',
             fetchWithCache S (Toy.t0 + Hour) W = Returns (d, e, s', w'))
    by (do 4 eexists; vm_compute; reflexivity).
  destruct H as (d & e & s' & w' & H).
  exists d, e, s', w'. split; [exact H |].
  exact (cache_only_source_left_alone S (Toy.t0 + Hour) W d e s' w' eq_refl H).
Defined.

(** X5, on a run: no cache and a mirror that is down. *)
Lemma refresh_follows_delay_witness :
  let S := Toy.source [Toy.mirror "/m1"] DefaultPrefetchDelay in
  let W := Toy.world ∅ Toy.net_down Toy.t0 in
  exists d e s' w',
    fetchWithCache S Toy.t0 W = Returns (d, e, s', w')
    /\ refresh s' = Add Toy.t0 d
    /\ (is_Some e -> d = MinimumPrefetchInterval).
Proof.
  intros S W.
  assert (H : exists d e s' w',
             fetchWithCache S Toy.t0 W = Returns (d, e, s', w'))
    by (do 4 eexists; vm_compute; reflexivity).
  destruct H as (d & e & s' & w' & H).
  exists d, e, s', w'. split; [exact H |].
  destruct (refresh_follows_delay S Toy.t0 W d e s' w') as (H1 & H2 & _);
    [discriminate | exact H |].
  split; assumption.
Defined.

(** X6, on a run: three mirrors, the third of which verifies. *)
Lemma requests_only_to_mirrors_witness :
  let S := Toy.source [Toy.mirror "/m1"; Toy.mirror "/m2"; Toy.mirror "/m3"]
                      DefaultPrefetchDelay in
  let W := Toy.world ∅ Toy.net3 Toy.t0 in
  exists d e s' w' reqs,
    fetchWithCache S Toy.t0 W = Returns (d, e, s', w')
    /\ fetched w' = (fetched W ++ reqs)%list
    /\ Forall (mirror_request S) reqs
    /\ (length reqs <= 2 * length (urls S))%nat.
Proof.
  intros S W.
  assert (H : exists d e s' w',
             fetchWithCache S Toy.t0 W = Returns (d, e, s', w'))
    by (do 4 eexists; vm_compute; reflexivity).
  destruct H as (d & e & s' & w' & H).
  destruct (requests_only_to_mirrors S Toy.t0 W d e s' w' H)
    as (reqs & H1 & H2 & H3 & _).
  exists d, e, s', w', reqs. auto.
Defined.

(** X7, on a run: the same call writes the two cache files only. *)
Lemma only_own_cache_files_written_witness :
  let S := Toy.source [Toy.mirror "/m1"; Toy.mirror "/m2"; Toy.mirror "/m3"]
                      DefaultPrefetchDelay in
  let W := Toy.world ∅ Toy.net3 Toy.t0 in
  exists d e s' w',
    fetchWithCache S Toy.t0 W = Returns (d, e, s', w')
    /\ files w' !! "other.md" = files W !! "other.md"
    /\ (forall p, p ∈ written w' ->
                  p ∈ written W \/ p = "cache.md" \/ p = "cache.md.minisig").
Proof.
  intros S W.
  assert (H : exists d e s' w',
             fetchWithCache S Toy.t0 W = Returns (d, e, s', w'))
    by (do 4 eexists; vm_compute; reflexivity).
  destruct H as (d & e & s' & w' & H).
  destruct (only_own_cache_files_written S Toy.t0 W d e s' w' H) as (H1 & H2 & _).
  exists d, e, s', w'. split; [exact H |]. split; [|exact H2].
  apply H1; discriminate.
Defined.

(** X8, on a run: a cache that is twenty-five hours old and a mirror that
    is down. *)
Lemma stale_cache_survives_failed_mirrors_witness :
  let S := Toy.source [Toy.mirror "/m1"] DefaultPrefetchDelay in
  let now := Toy.t0 + 25 * Hour in
  let W := Toy.world (Toy.disk Toy.t0) Toy.net_down now in
  exists s' w',
    fetchWithCache S now W
    = Returns (MinimumPrefetchInterval, Some (Toy.bad "unreachable"), s', w')
    /\ in_ s' = Toy.blobA
    /\ refresh s' = Add now MinimumPrefetchInterval
    /\ files w' = files W /\ written w' = written W.
Proof.
  intros S now W.
  apply (stale_cache_survives_failed_mirrors S now W Toy.blobA Toy.t0 []
           (Toy.mirror "/m1") (Toy.bad "unreachable")).
  - apply toy_cache_verified.
  - reflexivity.
  - left. discriminate.
  - constructor.
  - left. exists []. reflexivity.
Defined.

(** X9, on a run: [blobB] and its signature are stored on an empty disk
    and loaded one hour later. *)
Lemma store_then_load_witness :
  let S := Toy.source [] DefaultPrefetchDelay in
  let W := Toy.world ∅ Toy.net_down Toy.t0 in
  exists w',
    writeToCache S Toy.blobB (Toy.sign "K" Toy.blobB) W = (None, w')
    /\ cached_pair w' "cache.md" = (Some Toy.blobB, Some (Toy.sign "K" Toy.blobB))
    /\ cache_verified S w' Toy.blobB Toy.t0
    /\ fetchFromCache S (Toy.t0 + Hour) w'
       = Returns (23 * Hour, None, set_in S Toy.blobB).
Proof.
  intros S W.
  apply (store_then_load S Toy.blobB (Toy.sign "K" Toy.blobB) W (Toy.t0 + Hour)).
  - reflexivity.
  - apply not_elem_of_empty.
  - apply not_elem_of_empty.
  - apply not_elem_of_empty.
Defined.

(** X10, on a run: the disk holds [blobB] next to the signature of
    [blobA]; the source has no URL. *)
Lemma unverified_cache_is_a_miss_witness :
  let S := Toy.source [] DefaultPrefetchDelay in
  let W := Toy.world (Toy.disk_tampered Toy.t0) Toy.net_down Toy.t0 in
  fetchFromCache S Toy.t0 W
  = Returns (0, Some (Toy.bad "signature does not match"), S)
  /\ fetchWithCache S Toy.t0 W
     = Returns (0, Some (Toy.bad "signature does not match"), S, W).
Proof.
  intros S W.
  destruct (unverified_cache_is_a_miss S Toy.t0 W Toy.blobB
              (Toy.sign "K" Toy.blobA) (Toy.bad "signature does not match"))
    as (H1 & H2 & _); [reflexivity | reflexivity | reflexivity |].
  split; [exact H1 | apply H2; reflexivity].
Defined.

(** X11, on a run: a source without a key and a mirror that is down. *)
Lemma keyless_source_never_loads_witness :
  let W := Toy.world ∅ Toy.net_down Toy.t0 in
  exists d e s' w',
    fetchWithCache Toy.keyless Toy.t0 W = Returns (d, e, s', w')
    /\ is_Some e /\ in_ s' = in_ Toy.keyless.
Proof.
  intros W.
  assert (H : exists d e s' w',
             fetchWithCache Toy.keyless Toy.t0 W = Returns (d, e, s', w'))
    by (do 4 eexists; vm_compute; reflexivity).
  destruct H as (d & e & s' & w' & H).
  exists d, e, s', w'. split; [exact H |].
  exact (keyless_source_never_loads Toy.keyless Toy.t0 W d e s' w' eq_refl H).
Defined.

(** X12, on a run: a new source with one mirror that verifies. *)
Lemma NewSource_success_means_loaded_witness :
  let W := Toy.world ∅ Toy.net3 Toy.t0 in
  exists source w',
    NewSource "public" ["/m3"; ""] "K" "cache.md" "v2" 5 W
    = Returns (source, None, w')
    /\ content_trusted source
    /\ accepted source W (in_ source)
    /\ urls source = parsed_urls ["/m3"; ""].
Proof.
  intros W.
  assert (H : exists source w',
             NewSource "public" ["/m3"; ""] "K" "cache.md" "v2" 5 W
             = Returns (source, None, w'))
    by (do 2 eexists; vm_compute; reflexivity).
  destruct H as (source & w' & H).
  exists source, w'. split; [exact H |].
  destruct (NewSource_success_means_loaded _ _ _ _ _ _ _ _ _ _ H)
    as (Ht & Hok).
  destruct (Hok eq_refl) as (Ha & _ & Hu & _).
  auto.
Defined.

(** X13, on a run: [Parse] after a call of [fetchWithCache]. *)
Lemma Parse_of_NewSource_is_parseV2_witness :
  let S := Toy.source [Toy.mirror "/m3"] DefaultPrefetchDelay in
  let W := Toy.world ∅ Toy.net3 Toy.t0 in
  exists d e s' w',
    fetchWithCache S Toy.t0 W = Returns (d, e, s', w')
    /\ Parse s' "" = ParseReturns (fst (parseV2 s' "")) (snd (parseV2 s' "")).
Proof.
  intros S W.
  assert (H : exists d e s' w',
             fetchWithCache S Toy.t0 W = Returns (d, e, s', w'))
    by (do 4 eexists; vm_compute; reflexivity).
  destruct H as (d & e & s' & w' & H).
  exists d, e, s', w'. split; [exact H |].
  exact (proj2 (Parse_of_NewSource_is_parseV2 "" [] "" "" "" 0 W "")
           S Toy.t0 W d e s' w' eq_refl H).
Defined.

(** X14, on a run: one hour before the two sources are due. *)
Lemma sweep_of_not_due_sources_is_idle_witness :
  let W := Toy.world ∅ Toy.net3 (Toy.t0 - Hour) in
  PrefetchSources [1%nat; 2%nat] Toy.heapAB W
  = Returns (MinimumPrefetchInterval, Toy.heapAB, W).
Proof.
  intros W. apply sweep_of_not_due_sources_is_idle.
  intros p Hp.
  apply elem_of_cons in Hp as [-> | Hp].
  - exists Toy.dueA. split; [reflexivity | right; reflexivity].
  - apply list_elem_of_singleton in Hp. subst p.
    exists Toy.dueB. split; [reflexivity | right; reflexivity].
Defined.

(** X15, on a run: the sweep over the two due sources. *)
Lemma sweep_keeps_sources_trusted_witness :
  exists interval heap' w' s',
    PrefetchSources [1%nat; 2%nat] Toy.heapAB Toy.worldAB
    = Returns (interval, heap', w')
    /\ heap' !! 2%nat = Some s'
    /\ same_config Toy.dueB s'
    /\ content_trusted s'.
Proof.
  assert (H : exists interval heap' w',
             PrefetchSources [1%nat; 2%nat] Toy.heapAB Toy.worldAB
             = Returns (interval, heap', w'))
    by (do 3 eexists; vm_compute; reflexivity).
  destruct H as (interval & heap' & w' & H).
  destruct (proj1 (sweep_keeps_sources_trusted _ _ _ _ _ _ H) 2%nat Toy.dueB eq_refl)
    as (s' & H1 & H2 & _ & H4).
  exists interval, heap', w', s'. split; [exact H |]. split; [exact H1 |].
  split; [exact H2 |]. apply H4. left. reflexivity.
Defined.

(** X16, on a run: the same sweep. *)
Lemma sweep_wait_at_least_minimum_witness :
  exists interval heap' w',
    PrefetchSources [1%nat; 2%nat] Toy.heapAB Toy.worldAB
    = Returns (interval, heap', w')
    /\ 10 * Minute <= interval /\ 0 < interval.
Proof.
  assert (H : exists interval heap' w',
             PrefetchSources [1%nat; 2%nat] Toy.heapAB Toy.worldAB
             = Returns (interval, heap', w'))
    by (do 3 eexists; vm_compute; reflexivity).
  destruct H as (interval & heap' & w' & H).
  exists interval, heap', w'. split; [exact H |].
  exact (proj1 (sweep_wait_at_least_minimum _ _ _) interval heap' w' H).
Defined.

(** X17, on a run: the entry of section [B]. *)
Lemma parseV2_entries_come_from_sections_witness :
  exists part d,
    part ∈ sections (Toy.loaded (two_sections sample_stamp))
    /\ has_name_and_body part
    /\ "B" = "" ++ section_name part
    /\ descriptors part = [d]
    /\ is_descriptor d = true
    /\ 6 <= len d
    /\ stamps_NewServerStampFromString d = inr sample_stamp.
Proof.
  destruct (proj1 (parseV2_entries_come_from_sections
                     (Toy.loaded (two_sections sample_stamp)) "")
              (@mkRegisteredServer Toy.ext "B" sample_stamp ""))
    as (part & d & H1 & H2 & H3 & H4 & H5 & H6 & H7 & _).
  { left. }
  exists part, d. auto 10.
Defined.

(** X18, on a run: two sections, one entry and one collected error. *)
Lemma parseV2_accounts_for_sections_witness :
  let S := Toy.loaded (two_sections sample_stamp) in
  (length (fst (parseV2 S "")) + length (entry_errors_of "" (sections S))
   = length (sections S))%nat
  /\ (snd (parseV2 S "") = None
      <-> length (fst (parseV2 S "")) = length (sections S)).
Proof.
  intros S. apply parseV2_accounts_for_sections.
  - discriminate.
  - repeat constructor; vm_compute; first [lia | discriminate].
Defined.

(** X19, on a run: two mirrors with the same signature URL. *)
Lemma sigURL_derivation_witness :
  Toy.mirror "/m1" = Toy.mirror "/m1".
Proof.
  apply (proj2 (proj2 (proj2 (proj2 (proj2
           (sigURL_derivation (Toy.mirror "/m1") (Toy.mirror "/m1"))))))).
  reflexivity.
Defined.

(** X20, on a run: a refresh from mirror [/m3], then a call one hour
    later. *)
Lemma network_refresh_then_cache_hit_witness :
  let S := Toy.source [Toy.mirror "/m1"; Toy.mirror "/m3"] DefaultPrefetchDelay in
  let W := Toy.world ∅ Toy.net3 Toy.t0 in
  exists s1 w1 d2 s2,
    fetchWithCache S Toy.t0 W = Returns (prefetchDelay S, None, s1, w1)
    /\ in_ s1 = Toy.blobB
    /\ cache_verified s1 w1 Toy.blobB (clock W)
    /\ fetchWithCache s1 (Toy.t0 + Hour) w1 = Returns (d2, None, s2, w1)
    /\ in_ s2 = Toy.blobB
    /\ d2 = dsub (prefetchDelay S) (Sub (Toy.t0 + Hour) (clock W)).
Proof.
  intros S W.
  apply (network_refresh_then_cache_hit S Toy.t0 (Toy.t0 + Hour) W
           (ErrExternal "no such file or directory")
           [Toy.mirror "/m1"] [] (Toy.mirror "/m3") Toy.blobB
           (Toy.sign "K" Toy.blobB)).
  - reflexivity.
  - reflexivity.
  - repeat constructor. exists (Toy.bad "unreachable"). left. exists []. reflexivity.
  - repeat split.
  - apply not_elem_of_empty.
  - apply not_elem_of_empty.
  - apply not_elem_of_empty.
  - reflexivity.
  - reflexivity.
Defined.
